(** * Multiplayer snake server: the authoritative game-state engine

    A shallow embedding of [server.py]: the [Snake] and [Server] objects,
    the per-connection command handler [handle_client], the physics step
    [game_tick] with [spawn_food], and [broadcast_frame].

    Python integers are [Z]; tuples [(x, y)] are pairs; [list]s are lists;
    the insertion-ordered [dict]s [snakes], [writers] and [players] are
    association lists with unique keys, in insertion order; the [set]
    [food] is a [gset].  Exceptions are the [Raise] results of a small
    error monad; the [random] module is a stream of raw draws. *)

From Stdlib Require Import Ascii.
From stdpp Require Import base option list strings gmap.

Local Open Scope Z_scope.
#[local] Set Warnings "-clear-no-such-hyp".

(** ** Configuration *)

Definition WIDTH : Z := 30.
Definition HEIGHT : Z := 15.

Definition pos : Type := Z * Z.

(** ** Insertion-ordered dictionaries *)

Module Dict.
Section dict.
Context {K V : Type} `{EqDecision K}.

Definition t : Type := list (K * V).

Definition keys (d : t) : list K := d.*1.
Definition values (d : t) : list V := d.*2.

(** [d.get(k)] *)
Fixpoint get (k : K) (d : t) : option V :=
  match d with
  | [] => None
  | (k', v) :: d' => if decide (k' = k) then Some v else get k d'
  end.

(** [k in d] *)
Definition mem (k : K) (d : t) : bool := bool_decide (is_Some (get k d)).

(** [d[k] = v]: an existing key keeps its place, a new one goes last. *)
Fixpoint set (k : K) (v : V) (d : t) : t :=
  match d with
  | [] => [(k, v)]
  | (k', v') :: d' =>
      if decide (k' = k) then (k, v) :: d' else (k', v') :: set k v d'
  end.

(** In-place mutation of the object stored under [k]. *)
Fixpoint alter (f : V → V) (k : K) (d : t) : t :=
  match d with
  | [] => []
  | (k', v) :: d' =>
      if decide (k' = k) then (k', f v) :: d' else (k', v) :: alter f k d'
  end.

(** [del d[k]] *)
Fixpoint del (k : K) (d : t) : t :=
  match d with
  | [] => []
  | (k', v) :: d' => if decide (k' = k) then d' else (k', v) :: del k d'
  end.
End dict.
Global Arguments t : clear implicits.
End Dict.

(** ** Exceptions *)

(** [Exhausted] is not a Python exception: it marks a run that used up the
    supplied random draws while [spawn_food] was still searching. *)
Inductive exn : Type :=
  | KeyError | IndexError | AttributeError | TypeError | Exhausted.

Inductive res (A : Type) : Type :=
  | Ok (a : A)
  | Raise (e : exn).
Global Arguments Ok {A} a.
Global Arguments Raise {A} e.

Global Instance res_ret : MRet res := fun A a => Ok a.
Global Instance res_bind : MBind res := fun A B f m =>
  match m with
  | Ok a => f a
  | Raise e => Raise e
  end.

Definition of_option {A} (e : exn) (o : option A) : res A :=
  match o with
  | Some a => Ok a
  | None => Raise e
  end.

Definition is_Ok {A} (r : res A) : Prop := ∃ a, r = Ok a.

(** ** Directions *)

Definition DIRS : Dict.t string pos :=
  [("U", (0, -1)); ("D", (0, 1)); ("L", (-1, 0)); ("R", (1, 0))]%string.

(** [DIRS[d]] *)
Definition DIRS_at (d : string) : res pos := of_option KeyError (Dict.get d DIRS).

(** ** Snakes and the server state *)

Record Snake : Type := mkSnake {
  pid : Z;
  body : list pos;
  dir : string;
  grow : Z;
  alive : bool
}.

(** [Snake(pid, x, y, dir_key)] *)
Definition Snake_init (p x y : Z) (dir_key : string) : Snake :=
  mkSnake p [(x, y)] dir_key 0 true.

Definition set_body (b : list pos) (s : Snake) : Snake :=
  mkSnake (pid s) b (dir s) (grow s) (alive s).
Definition set_dir (d : string) (s : Snake) : Snake :=
  mkSnake (pid s) (body s) d (grow s) (alive s).
Definition set_grow (g : Z) (s : Snake) : Snake :=
  mkSnake (pid s) (body s) (dir s) g (alive s).
Definition set_alive (a : bool) (s : Snake) : Snake :=
  mkSnake (pid s) (body s) (dir s) (grow s) a.

(** Stream readers and writers are identified by a handle. *)
Definition handle : Type := nat.

Record Server : Type := mkServer {
  players : Dict.t handle Z;
  writers : Dict.t Z handle;
  snakes : Dict.t Z Snake;
  next_pid : Z;
  food : gset pos
}.

Definition Server_init : Server := mkServer [] [] [] 1 ∅.

Definition set_players (p : Dict.t handle Z) (w : Server) : Server :=
  mkServer p (writers w) (snakes w) (next_pid w) (food w).
Definition set_writers (ws : Dict.t Z handle) (w : Server) : Server :=
  mkServer (players w) ws (snakes w) (next_pid w) (food w).
Definition set_snakes (ss : Dict.t Z Snake) (w : Server) : Server :=
  mkServer (players w) (writers w) ss (next_pid w) (food w).
Definition set_next_pid (n : Z) (w : Server) : Server :=
  mkServer (players w) (writers w) (snakes w) n (food w).
Definition set_food (f : gset pos) (w : Server) : Server :=
  mkServer (players w) (writers w) (snakes w) (next_pid w) f.

(** Mutation of the snake object registered under [p]. *)
Definition update_snake (p : Z) (f : Snake → Snake) (w : Server) : Server :=
  set_snakes (Dict.alter f p (snakes w)) w.

(** ** Randomness *)

(** The [random] module is a supply of raw integers; [randrange(n)] reduces
    the next one into [0, n). *)
Definition rng : Type := list Z.

Definition randrange (n : Z) (r : rng) : res (Z * rng) :=
  match r with
  | [] => Raise Exhausted
  | z :: r' => Ok (z `mod` n, r')
  end.

(** [random.choice(list(DIRS.keys()))] *)
Definition random_dir (r : rng) : res (string * rng) :=
  '(i, r') ← randrange (Z.of_nat (length DIRS)) r;
  d ← of_option IndexError (Dict.keys DIRS !! Z.to_nat i);
  Ok (d, r').

(** ** Messages read from a client *)

(** The values [json.loads] can return. *)
#[warnings="-register-all"]
Inductive json : Type :=
  | JNull
  | JBool (b : bool)
  | JNum (n : Z)
  | JStr (s : string)
  | JArr (l : list json)
  | JObj (kv : list (string * json)).

(** What [json.loads(line.decode('utf8').strip())] does with a non-empty
    line: it raises, or it returns a value. *)
Inductive parsed : Type :=
  | Unparseable
  | Parsed (msg : json).

(** [msg.get(k)]: only a [dict] has the method; a missing key gives [None]. *)
Definition msg_get (msg : json) (k : string) : res json :=
  match msg with
  | JObj kv => Ok (default JNull (Dict.get k kv))
  | _ => Raise AttributeError
  end.

(** [v == k] for a [str] literal [k] *)
Definition json_is_str (v : json) (k : string) : bool :=
  match v with
  | JStr s => bool_decide (s = k)
  | _ => false
  end.

(** [d in DIRS]: hashing a list or a dict raises; any other value is just
    looked up.  The result carries the key when it is one. *)
Definition in_DIRS (d : json) : res (option string) :=
  match d with
  | JStr s => Ok (if Dict.mem s DIRS then Some s else None)
  | JArr _ | JObj _ => Raise TypeError
  | JNull | JBool _ | JNum _ => Ok None
  end.

(** ** Applying a command (the body of the locked section of the input loop) *)

(** [s.body[i]] for [i >= 0] *)
Definition body_at (s : Snake) (i : nat) : res pos :=
  of_option IndexError (body s !! i).

Definition steer (d : string) (s : Snake) : res Snake :=
  if bool_decide (length (body s) < 2)%nat then Ok (set_dir d s)
  else
    '(hx, hy) ← body_at s 0;
    '(nx, ny) ← body_at s 1;
    v ← DIRS_at d;
    if bool_decide ((hx - nx, hy - ny) ≠ v) then Ok (set_dir d s) else Ok s.

Definition apply_cmd (p : Z) (d : string) (w : Server) : res Server :=
  match Dict.get p (snakes w) with
  | Some s =>
      if alive s then
        s' ← steer d s;
        Ok (update_snake p (λ _, s') w)
      else Ok w
  | None => Ok w
  end.

(** One pass through the body of the input loop for a non-empty line. *)
Definition handle_line (p : Z) (l : parsed) (w : Server) : res Server :=
  match l with
  | Unparseable => Ok w
  | Parsed msg =>
      t ← msg_get msg "type";
      if json_is_str t "cmd" then
        d ← msg_get msg "dir";
        k ← in_DIRS d;
        match k with
        | Some ds => apply_cmd p ds w
        | None => Ok w
        end
      else Ok w
  end.

(** The [finally] block of [handle_client]. *)
Definition cleanup (p : Z) (w : Server) : Server :=
  let w1 := if Dict.mem p (snakes w) then update_snake p (set_alive false) w else w in
  if Dict.mem p (writers w1) then set_writers (Dict.del p (writers w1)) w1 else w1.

(** What the read loop of a session sees next: end of stream (an empty
    read) or a line. *)
Inductive input : Type :=
  | Eof
  | Line (l : parsed).

Inductive session : Type :=
  | Reading
  | Ended.

(** One iteration of the input loop of the session of player [p].  An
    exception other than a cancellation leaves the loop through the
    [finally] block. *)
Definition session_step (p : Z) (i : input) (w : Server) : Server * session :=
  match i with
  | Eof => (cleanup p w, Ended)
  | Line l =>
      match handle_line p l w with
      | Ok w' => (w', Reading)
      | Raise _ => (cleanup p w, Ended)
      end
  end.

(** The prologue of [handle_client]: a fresh pid, a snake at a random cell
    with a random direction, and the three registrations. *)
Definition accept (reader writer : handle) (r : rng) (w : Server) : res (Z * Server * rng) :=
  let p := next_pid w in
  let w := set_next_pid (p + 1) w in
  '(x, r) ← randrange WIDTH r;
  '(y, r) ← randrange HEIGHT r;
  '(d, r) ← random_dir r;
  let snake := Snake_init p x y d in
  let w := set_snakes (Dict.set p snake (snakes w)) w in
  let w := set_writers (Dict.set p writer (writers w)) w in
  let w := set_players (Dict.set reader p (players w)) w in
  Ok (p, w, r).

(** ** Transports *)

Inductive message : Type :=
  | MsgDead (p : Z)
  | MsgFrame (w h : Z) (rows : list string).

(** A write on a transport either goes through or raises; [Failed] records
    a write that raised. *)
Inductive io_event : Type :=
  | Sent (wr : handle) (m : message)
  | Failed (wr : handle) (m : message).

(** The transports whose writes raise during one locked section. *)
Definition faults : Type := handle → bool.

Definition transport_write (broken : faults) (wr : handle) (m : message) : io_event :=
  if broken wr then Failed wr m else Sent wr m.

(** ** The physics step *)

(** [(x, y) in s.body for s in self.snakes.values()], as [any] sees it. *)
Definition on_any_snake (c : pos) (ss : Dict.t Z Snake) : bool :=
  existsb (λ s, bool_decide (c ∈ body s)) (Dict.values ss).

(** [spawn_food]: each round takes two draws; the search has no bound of
    its own, so it ends only when a round succeeds. *)
Fixpoint spawn_food (r : rng) (w : Server) : res (Server * rng) :=
  match r with
  | zx :: zy :: r' =>
      let c := (zx `mod` WIDTH, zy `mod` HEIGHT) in
      if on_any_snake c (snakes w) then spawn_food r' w
      else if bool_decide (c ∈ food w) then spawn_food r' w
      else Ok (set_food ({[c]} ∪ food w) w, r')
  | _ => Raise Exhausted
  end.

(** Step 1 and 2 of the loop body: the wrapped cell in front of the head. *)
Definition next_head (s : Snake) : res pos :=
  '(dx, dy) ← DIRS_at (dir s);
  '(hx, hy) ← body_at s 0;
  Ok ((hx + dx) `mod` WIDTH, (hy + dy) `mod` HEIGHT).

(** Step 3: the scan over [self.snakes.values()]. *)
Definition collision (head : pos) (ss : Dict.t Z Snake) : bool :=
  existsb (λ other, alive other && bool_decide (head ∈ body other)) (Dict.values ss).

(** Step 5: food under the new head. *)
Definition check_food (p : Z) (head : pos) (r : rng) (w : Server) : res (Server * rng) :=
  if bool_decide (head ∈ food w) then
    let w := set_food (food w ∖ {[head]}) w in
    let w := update_snake p (λ s, set_grow (grow s + 3) s) w in
    spawn_food r w
  else Ok (w, r).

(** [s.body.pop()] *)
Definition body_pop (s : Snake) : res Snake :=
  match body s with
  | [] => Raise IndexError
  | _ :: _ => Ok (set_body (removelast (body s)) s)
  end.

(** Step 6: the tail. *)
Definition handle_tail (p : Z) (w : Server) : res Server :=
  s ← of_option KeyError (Dict.get p (snakes w));
  if bool_decide (0 < grow s) then Ok (update_snake p (set_grow (grow s - 1)) w)
  else
    s' ← body_pop s;
    Ok (update_snake p (λ _, s') w).

(** The state threaded through the loop over the snakes: the server, the
    random supply and [to_kill]. *)
Definition tick_state : Type := Server * rng * list Z.

(** The loop body for the snake registered under [p]. *)
Definition tick_snake (p : Z) (st : tick_state) : res tick_state :=
  let '(w, r, to_kill) := st in
  s ← of_option KeyError (Dict.get p (snakes w));
  if negb (alive s) then Ok st
  else
    head ← next_head s;
    if collision head (snakes w) then
      Ok (update_snake p (set_alive false) w, r, to_kill ++ [p])
    else
      let w := update_snake p (λ s, set_body (head :: body s) s) w in
      '(w, r) ← check_food p head r w;
      w ← handle_tail p w;
      Ok (w, r, to_kill).

(** The loop over a list of pids. *)
Fixpoint tick_loop (ps : list Z) (st : tick_state) : res tick_state :=
  match ps with
  | [] => Ok st
  | p :: ps' => st' ← tick_snake p st; tick_loop ps' st'
  end.

(** The closing loop over [to_kill]; an exception of the write is
    swallowed. *)
Definition notify_dead (broken : faults) (to_kill : list Z) (w : Server) : list io_event :=
  flat_map (λ p,
    match Dict.get p (writers w) with
    | Some wr => [transport_write broken wr (MsgDead p)]
    | None => []
    end) to_kill.

Definition game_tick (broken : faults) (r : rng) (w : Server) : res (Server * rng * list io_event) :=
  '(w', r', to_kill) ← tick_loop (Dict.keys (snakes w)) (w, r, []);
  Ok (w', r', notify_dead broken to_kill w').

(** ** The broadcaster *)

Definition grid : Type := list (list ascii).

(** [l[i]] as an index: negative indexes count from the end, anything
    outside [-len, len) raises. *)
Definition list_index {A} (l : list A) (i : Z) : res nat :=
  let n := Z.of_nat (length l) in
  if bool_decide (0 ≤ i < n) then Ok (Z.to_nat i)
  else if bool_decide (- n ≤ i < 0) then Ok (Z.to_nat (n + i))
  else Raise IndexError.

(** [rows[y][x] = ch] *)
Definition plot (c : pos) (ch : ascii) (rows : grid) : res grid :=
  let '(x, y) := c in
  j ← list_index rows y;
  row ← of_option IndexError (rows !! j);
  i ← list_index row x;
  Ok (<[j := <[i := ch]> row]> rows).

(** [str(n)] for a single digit [n] *)
Definition digit_char (n : Z) : ascii := ascii_of_nat (48 + Z.to_nat n).

(** [ch.upper()] *)
Definition upper (ch : ascii) : ascii :=
  let n := nat_of_ascii ch in
  if bool_decide (97 ≤ n ≤ 122)%nat then ascii_of_nat (n - 32) else ch.

Definition blank : grid :=
  replicate (Z.to_nat HEIGHT) (replicate (Z.to_nat WIDTH) "."%char).

Fixpoint draw_food (cs : list pos) (rows : grid) : res grid :=
  match cs with
  | [] => Ok rows
  | c :: cs' => rows' ← plot c "*"%char rows; draw_food cs' rows'
  end.

(** The inner loop over [enumerate(s.body)], from index [i] on. *)
Fixpoint draw_body (ch : ascii) (i : nat) (cs : list pos) (rows : grid) : res grid :=
  match cs with
  | [] => Ok rows
  | c :: cs' =>
      rows' ← plot c (if bool_decide (0 < i)%nat then ch else upper ch) rows;
      draw_body ch (S i) cs' rows'
  end.

Fixpoint draw_snakes (ss : Dict.t Z Snake) (rows : grid) : res grid :=
  match ss with
  | [] => Ok rows
  | (p, s) :: ss' =>
      if negb (alive s) then draw_snakes ss' rows
      else
        rows' ← draw_body (digit_char (p `mod` 10)) 0 (body s) rows;
        draw_snakes ss' rows'
  end.

Definition render (w : Server) : res message :=
  rows ← draw_food (elements (food w)) blank;
  rows ← draw_snakes (snakes w) rows;
  Ok (MsgFrame WIDTH HEIGHT (String.string_of_list_ascii <$> rows)).

(** The pass over [list(self.writers.items())]: every transport is written
    to; the pids of those that raised are collected in [dead]. *)
Fixpoint broadcast_pass (broken : faults) (data : message) (ws : Dict.t Z handle)
    (dead : list Z) : list io_event * list Z :=
  match ws with
  | [] => ([], dead)
  | (p, wr) :: ws' =>
      let dead' := if broken wr then dead ++ [p] else dead in
      let '(evs, dead'') := broadcast_pass broken data ws' dead' in
      (transport_write broken wr data :: evs, dead'')
  end.

(** The loop [for pid in dead: del self.writers[pid]]. *)
Fixpoint drop_writers (dead : list Z) (ws : Dict.t Z handle) : res (Dict.t Z handle) :=
  match dead with
  | [] => Ok ws
  | p :: dead' =>
      if Dict.mem p ws then drop_writers dead' (Dict.del p ws) else Raise KeyError
  end.

Definition broadcast_frame (broken : faults) (w : Server) : res (Server * list io_event) :=
  data ← render w;
  let '(evs, dead) := broadcast_pass broken data (writers w) [] in
  ws ← drop_writers dead (writers w);
  Ok (set_writers ws w, evs).

(** ** The server as a transition system *)

(** The initial food of [start]. *)
Fixpoint spawn_foods (n : nat) (r : rng) (w : Server) : res (Server * rng) :=
  match n with
  | O => Ok (w, r)
  | S n' => '(w', r') ← spawn_food r w; spawn_foods n' r' w'
  end.

Definition start (r : rng) : res (Server * rng) := spawn_foods 10 r Server_init.

(** Everything that touches the shared state: a connection being accepted,
    an iteration of a session's input loop, and the two halves of the
    locked section of [tick_loop]. *)
Inductive op : Type :=
  | OpAccept (reader writer : handle)
  | OpInput (p : Z) (i : input)
  | OpTick (broken : faults)
  | OpBroadcast (broken : faults).

Definition exec (o : op) (st : Server * rng) : res (Server * rng * list io_event) :=
  let '(w, r) := st in
  match o with
  | OpAccept reader writer =>
      '(_, w', r') ← accept reader writer r w; Ok (w', r', [])
  | OpInput p i => Ok ((session_step p i w).1, r, [])
  | OpTick broken => game_tick broken r w
  | OpBroadcast broken =>
      '(w', evs) ← broadcast_frame broken w; Ok (w', r, evs)
  end.

Fixpoint run (os : list op) (st : Server * rng) : res (Server * rng) :=
  match os with
  | [] => Ok st
  | o :: os' => '(w, r, _) ← exec o st; run os' (w, r)
  end.


(** ** Specification vocabulary *)

Definition in_bounds (c : pos) : Prop := 0 ≤ c.1 < WIDTH ∧ 0 ≤ c.2 < HEIGHT.

Definition snake_ok (s : Snake) : Prop :=
  body s ≠ [] ∧ Forall in_bounds (body s) ∧ is_Some (Dict.get (dir s) DIRS) ∧ 0 ≤ grow s.

(** The state invariant proper. *)
Definition state_ok (w : Server) : Prop :=
  Forall snake_ok (Dict.values (snakes w)) ∧ set_Forall in_bounds (food w).

(** What makes the association lists dictionaries, and pids fresh. *)
Definition dicts_ok (w : Server) : Prop :=
  NoDup (Dict.keys (snakes w)) ∧ NoDup (Dict.keys (writers w)) ∧
  Forall (λ p, p < next_pid w) (Dict.keys (snakes w)).

Definition inv (w : Server) : Prop := dicts_ok w ∧ state_ok w.

(** The snake registered under [p], and whether it is alive. *)
Definition snake_of (p : Z) (w : Server) : option Snake := Dict.get p (snakes w).

Definition is_alive (p : Z) (w : Server) : bool :=
  match snake_of p w with
  | Some s => alive s
  | None => false
  end.

(** The pids handled before [p] in a pass over [ps]. *)
Fixpoint before (p : Z) (ps : list Z) : list Z :=
  match ps with
  | [] => []
  | q :: ps' => if decide (q = p) then [] else q :: before p ps'
  end.

(** The state of the loop of [game_tick] when the turn of [p] comes. *)
Definition at_turn (p : Z) (r : rng) (w : Server) : res tick_state :=
  tick_loop (before p (Dict.keys (snakes w))) (w, r, []).

(** Whether the snake of [p] finds food under its new head in the step
    from [w]. *)
Definition eats (p : Z) (r : rng) (w : Server) : bool :=
  match at_turn p r w with
  | Ok (wm, _, _) =>
      match snake_of p wm with
      | Some s =>
          match next_head s with
          | Ok head =>
              alive s && negb (collision head (snakes wm)) && bool_decide (head ∈ food wm)
          | Raise _ => false
          end
      | None => false
      end
  | Raise _ => false
  end.

Definition ev_handle (e : io_event) : handle :=
  match e with Sent wr _ | Failed wr _ => wr end.

Definition ev_msg (e : io_event) : message :=
  match e with Sent _ m | Failed _ m => m end.

(** Whether an event is a death notice for [p]. *)
Definition is_death_notice (p : Z) (e : io_event) : bool :=
  match ev_msg e with
  | MsgDead q => bool_decide (q = p)
  | MsgFrame _ _ _ => false
  end.

(** A cell that no snake lies on or is about to enter, and that holds no
    food. *)
Definition clear (w : Server) (c : pos) : Prop :=
  (c ∉ food w) ∧
  ∀ s, s ∈ Dict.values (snakes w) → (c ∉ body s) ∧ next_head s ≠ Ok c.

(** The snake after a turn that it survives; [ate] tells whether food lay
    under the new head. *)
Definition moved (ate : bool) (head : pos) (s : Snake) : Snake :=
  let g := if ate then grow s + 3 else grow s in
  if bool_decide (0 < g) then mkSnake (pid s) (head :: body s) (dir s) (g - 1) (alive s)
  else mkSnake (pid s) (removelast (head :: body s)) (dir s) g (alive s).

(** What stays put when the snakes or the food are replaced. *)
Definition same_frame (w w' : Server) : Prop :=
  Dict.keys (snakes w') = Dict.keys (snakes w) ∧ writers w' = writers w ∧
  next_pid w' = next_pid w ∧ players w' = players w.

(** A result that is a value satisfying [P], or the mark of a starved
    [spawn_food]; no Python exception. *)
Definition safe {A} (P : A → Prop) (m : res A) : Prop :=
  match m with
  | Ok a => P a
  | Raise e => e = Exhausted
  end.

(** A grid of [HEIGHT] rows of [WIDTH] cells. *)
Definition grid_ok (rows : grid) : Prop :=
  length rows = Z.to_nat HEIGHT ∧ Forall (λ row, length row = Z.to_nat WIDTH) rows.

(** The draws that make [spawn_food] pick the cells [cs] in turn. *)
Definition draws_for (cs : list pos) : rng := flat_map (λ c, [c.1; c.2]) cs.

(** ** Example states *)

Definition no_faults : faults := λ _, false.

(** A snake of length 2 that came from (4,5) and heads right. *)
Definition ex_two_long : Server :=
  mkServer [(10%nat, 1)] [(1, 20%nat)]
    [(1, mkSnake 1 [(5, 5); (4, 5)] "R" 0 true)] 2 ∅.

(** Two snakes, two cells apart, facing each other across (4,5). *)
Definition ex_facing : Server :=
  mkServer [] [(1, 20%nat); (2, 21%nat)]
    [(1, mkSnake 1 [(3, 5)] "R" 0 true); (2, mkSnake 2 [(5, 5)] "L" 0 true)] 3 ∅.

(** A dead snake left on (0,0) and a live one elsewhere. *)
Definition ex_corpse : Server :=
  mkServer [] [(2, 21%nat)]
    [(1, mkSnake 1 [(0, 0)] "R" 0 false); (2, mkSnake 2 [(7, 7)] "D" 0 true)] 3 ∅.

(** One snake with food right in front of it. *)
Definition ex_meal : Server :=
  mkServer [] [(1, 20%nat)] [(1, mkSnake 1 [(3, 5)] "R" 0 true)] 2 {[ (4, 5) ]}.


(** The cell that [spawn_food] makes of a pair of draws. *)
Definition cell_of (z : Z * Z) : pos := (z.1 `mod` WIDTH, z.2 `mod` HEIGHT).

(** A cell that [spawn_food] takes: on no snake, holding no food. *)
Definition free_cell (w : Server) (c : pos) : Prop :=
  on_any_snake c (snakes w) = false ∧ c ∉ food w.

(** What the loop of [game_tick] needs of the cells [cs] it may still draw,
    with the snakes [ps] still to be handled: none holds food, none lies on
    a snake, none is the next head of a snake still to be handled. *)
Definition ready (ps : list Z) (w : Server) (cs : list pos) : Prop :=
  ∀ c, c ∈ cs →
    (c ∉ food w) ∧ (∀ s, s ∈ Dict.values (snakes w) → c ∉ body s) ∧
    (∀ q s, q ∈ ps → Dict.get q (snakes w) = Some s → next_head s ≠ Ok c).

(** The snake that shows at a cell: the last one, in the order of the snake
    dictionary, that is alive and lies on the cell. *)
Fixpoint top_snake (c : pos) (ss : Dict.t Z Snake) : option Z :=
  match ss with
  | [] => None
  | (p, s) :: ss' =>
      match top_snake c ss' with
      | Some q => Some q
      | None => if alive s && bool_decide (c ∈ body s) then Some p else None
      end
  end.

(** ** The locked section of [tick_loop] *)

(** One iteration of [tick_loop], without its clock: the physics step and
    then the broadcast, under the same lock. *)
Definition tick_section (broken : faults) (r : rng) (w : Server) :
    res (Server * rng * list io_event) :=
  '(w1, r1, notices) ← game_tick broken r w;
  '(w2, frames) ← broadcast_frame broken w1;
  Ok (w2, r1, notices ++ frames).

(** The grid that [broadcast_frame] builds before it joins the rows. *)
Definition render_grid (w : Server) : res grid :=
  rows ← draw_food (elements (food w)) blank;
  draw_snakes (snakes w) rows.

(** The character of a grid at a cell of the board. *)
Definition grid_at (rows : grid) (c : pos) : option ascii :=
  row ← rows !! Z.to_nat c.2; row !! Z.to_nat c.1.

(** The character of a frame at a cell of the board. *)
Definition frame_at (rows : list string) (c : pos) : option ascii :=
  row ← rows !! Z.to_nat c.2; String.get (Z.to_nat c.1) row.

(** * Facts about the dictionaries *)

Section dict_facts.
Context {K V : Type} `{EqDecision K}.
Implicit Types (d : Dict.t K V) (k q : K) (v : V).

Lemma dict_keys_alter (f : V → V) k d : Dict.keys (Dict.alter f k d) = Dict.keys d.
Proof.
  induction d as [|[k' v'] d IH]; simpl; [done|].
  case_decide; simpl; [done|]. by f_equal.
Qed.

Lemma dict_get_alter (f : V → V) k q d :
  Dict.get q (Dict.alter f k d) =
  if decide (k = q) then f <$> Dict.get q d else Dict.get q d.
Proof.
  induction d as [|[k' v'] d IH]; simpl.
  - by case_decide.
  - destruct (decide (k' = k)) as [->|Hk]; simpl.
    + by destruct (decide (k = q)).
    + destruct (decide (k' = q)) as [->|]; [|apply IH].
      destruct (decide (k = q)); [congruence|done].
Qed.

Lemma dict_get_alter_eq (f : V → V) k d :
  Dict.get k (Dict.alter f k d) = f <$> Dict.get k d.
Proof. rewrite dict_get_alter. by rewrite decide_True. Qed.

Lemma dict_get_alter_ne (f : V → V) k q d :
  k ≠ q → Dict.get q (Dict.alter f k d) = Dict.get q d.
Proof. intros. rewrite dict_get_alter. by rewrite decide_False. Qed.

Lemma dict_get_Some_keys k v d : Dict.get k d = Some v → k ∈ Dict.keys d.
Proof.
  induction d as [|[k' v'] d IH]; simpl; [done|].
  case_decide; subst; set_solver.
Qed.

Lemma dict_keys_get k d : k ∈ Dict.keys d → is_Some (Dict.get k d).
Proof.
  induction d as [|[k' v'] d IH]; simpl; [by intros ?%elem_of_nil|].
  case_decide; [by eauto|]. intros [?|?]%elem_of_cons; [congruence|auto].
Qed.

Lemma dict_get_None_keys k d : Dict.get k d = None ↔ k ∉ Dict.keys d.
Proof.
  split.
  - intros Hn Hin%dict_keys_get. rewrite Hn in Hin. by destruct Hin.
  - intros Hnin. destruct (Dict.get k d) eqn:E; [|done].
    by apply dict_get_Some_keys in E.
Qed.

Lemma dict_mem_true k d : Dict.mem k d = true ↔ k ∈ Dict.keys d.
Proof.
  unfold Dict.mem. rewrite bool_decide_eq_true. split.
  - intros [v Hv]. by eapply dict_get_Some_keys.
  - apply dict_keys_get.
Qed.

Lemma dict_get_Some_values k v d : Dict.get k d = Some v → v ∈ Dict.values d.
Proof.
  induction d as [|[k' v'] d IH]; simpl; [done|].
  case_decide; [intros [= ->]; set_solver|]. intros ?%IH. set_solver.
Qed.

Lemma dict_values_get v d :
  NoDup (Dict.keys d) → v ∈ Dict.values d → ∃ k, Dict.get k d = Some v.
Proof.
  induction d as [|[k' v'] d IH]; simpl; [by intros _ ?%elem_of_nil|].
  intros [Hk Hnd]%NoDup_cons [->|Hin]%elem_of_cons.
  - exists k'. by rewrite decide_True.
  - destruct (IH Hnd Hin) as [k Hget]. exists k.
    rewrite decide_False; [done|]. intros ->.
    by apply dict_get_Some_keys in Hget.
Qed.

Lemma dict_values_alter (f : V → V) k v d :
  v ∈ Dict.values (Dict.alter f k d) →
  v ∈ Dict.values d ∨ ∃ v0, Dict.get k d = Some v0 ∧ v = f v0.
Proof.
  induction d as [|[k' v'] d IH]; simpl; [by intros ?%elem_of_nil|].
  case_decide; simpl.
  - intros [->|?]%elem_of_cons; [right; by eauto|left; set_solver].
  - intros [->|Hin]%elem_of_cons; [left; set_solver|].
    destruct (IH Hin) as [?|?]; [left; set_solver|by right].
Qed.

Lemma dict_Forall_alter (P : V → Prop) (f : V → V) k d :
  Forall P (Dict.values d) →
  (∀ v0, Dict.get k d = Some v0 → P v0 → P (f v0)) →
  Forall P (Dict.values (Dict.alter f k d)).
Proof.
  intros Hall Hf. apply Forall_forall. intros v Hv.
  rewrite Forall_forall in Hall.
  apply dict_values_alter in Hv as [?|(v0 & Hget & ->)]; [by auto|].
  apply Hf; [done|]. apply Hall. by eapply dict_get_Some_values.
Qed.

Lemma dict_get_set v k q d :
  Dict.get q (Dict.set k v d) = if decide (k = q) then Some v else Dict.get q d.
Proof.
  induction d as [|[k' v'] d IH]; simpl.
  - by destruct (decide (k = q)).
  - destruct (decide (k' = k)) as [->|Hk]; simpl.
    + by destruct (decide (k = q)).
    + destruct (decide (k' = q)) as [->|]; [|apply IH].
      destruct (decide (k = q)); [congruence|done].
Qed.

Lemma dict_keys_set v k d :
  Dict.keys (Dict.set k v d) =
  if Dict.mem k d then Dict.keys d else Dict.keys d ++ [k].
Proof.
  induction d as [|[k' v'] d IH]; [done|].
  unfold Dict.mem in *. simpl.
  destruct (decide (k' = k)) as [->|Hk]; simpl; [done|].
  rewrite IH. by destruct (bool_decide (is_Some (Dict.get k d))).
Qed.

Lemma dict_NoDup_set v k d : NoDup (Dict.keys d) → NoDup (Dict.keys (Dict.set k v d)).
Proof.
  intros Hnd. rewrite dict_keys_set.
  destruct (Dict.mem k d) eqn:E; [done|].
  apply NoDup_app. split_and!; [done| |apply NoDup_singleton].
  intros x Hx ->%list_elem_of_singleton.
  apply dict_mem_true in Hx. congruence.
Qed.

Lemma dict_values_set v v' k d :
  v' ∈ Dict.values (Dict.set k v d) → v' = v ∨ v' ∈ Dict.values d.
Proof.
  induction d as [|[k0 v0] d IH]; simpl.
  - intros ?%list_elem_of_singleton. by left.
  - case_decide; simpl; intros [->|Hin]%elem_of_cons; set_solver.
Qed.

Lemma dict_keys_del k d : Dict.keys (Dict.del k d) ⊆ Dict.keys d.
Proof.
  induction d as [|[k' v'] d IH]; simpl; [done|].
  case_decide; simpl; set_solver.
Qed.

Lemma dict_NoDup_del k d : NoDup (Dict.keys d) → NoDup (Dict.keys (Dict.del k d)).
Proof.
  induction d as [|[k' v'] d IH]; simpl; [done|].
  intros [Hk Hnd]%NoDup_cons. case_decide; simpl; [done|].
  apply NoDup_cons. split; [|auto].
  intros Hin. by apply dict_keys_del in Hin.
Qed.

Lemma dict_get_del k q d :
  NoDup (Dict.keys d) →
  Dict.get q (Dict.del k d) = if decide (k = q) then None else Dict.get q d.
Proof.
  induction d as [|[k' v'] d IH]; simpl; [by case_decide|].
  intros [Hk Hnd]%NoDup_cons.
  destruct (decide (k' = k)) as [->|Hne]; simpl.
  - destruct (decide (k = q)) as [->|]; [by apply dict_get_None_keys|done].
  - destruct (decide (k' = q)) as [->|]; [by rewrite decide_False|by apply IH].
Qed.

Lemma dict_values_del k v d : v ∈ Dict.values (Dict.del k d) → v ∈ Dict.values d.
Proof.
  induction d as [|[k' v'] d IH]; simpl; [done|].
  case_decide; simpl; set_solver.
Qed.
End dict_facts.

(** * The input loop *)

Lemma dict_alter_const {K V} `{EqDecision K} (f : V → V) (k : K) (v : V) (d : Dict.t K V) :
  Dict.get k d = Some v → Dict.alter (λ _, f v) k d = Dict.alter f k d.
Proof.
  induction d as [|[k' v'] d IH]; simpl; [done|].
  case_decide; [by intros [= ->]|]. intros ?. f_equal. auto.
Qed.

Lemma dict_alter_id {K V} `{EqDecision K} (k : K) (v : V) (d : Dict.t K V) :
  Dict.get k d = Some v → Dict.alter (λ _, v) k d = d.
Proof.
  induction d as [|[k' v'] d IH]; simpl; [done|].
  case_decide; [by intros [= ->]|]. intros ?. f_equal. auto.
Qed.

Lemma set_snakes_id (w : Server) : set_snakes (snakes w) w = w.
Proof. by destruct w. Qed.

Lemma snake_of_update (p q : Z) (f : Snake → Snake) (w : Server) :
  snake_of q (update_snake p f w) =
  if decide (p = q) then f <$> snake_of q w else snake_of q w.
Proof. apply dict_get_alter. Qed.

Lemma DIRS_at_Ok (d : string) (v : pos) :
  DIRS_at d = Ok v ↔ Dict.get d DIRS = Some v.
Proof.
  unfold DIRS_at. destruct (Dict.get d DIRS); simpl; split; congruence.
Qed.

Lemma DIRS_cases (d : string) (v : pos) :
  Dict.get d DIRS = Some v →
  (d = "U" ∧ v = (0, -1)) ∨ (d = "D" ∧ v = (0, 1)) ∨
  (d = "L" ∧ v = (-1, 0)) ∨ (d = "R" ∧ v = (1, 0)).
Proof.
  unfold DIRS. simpl. repeat case_decide; naive_solver.
Qed.

(** The three outcomes of [steer]. *)
Lemma steer_short (d : string) (s : Snake) :
  (length (body s) < 2)%nat → steer d s = Ok (set_dir d s).
Proof. intros. unfold steer. by rewrite bool_decide_eq_true_2. Qed.

Lemma steer_long (d : string) (v : pos) (s : Snake) (hx hy nx ny : Z) (rest : list pos) :
  body s = (hx, hy) :: (nx, ny) :: rest →
  Dict.get d DIRS = Some v →
  steer d s = Ok (if bool_decide ((hx - nx, hy - ny) ≠ v) then set_dir d s else s).
Proof.
  intros Hb Hd. unfold steer, body_at, DIRS_at. rewrite Hb, Hd. simpl.
  by destruct (bool_decide ((hx - nx, hy - ny) ≠ v)).
Qed.

(** A reversal: the requested vector is the inverse of neck-to-head. *)
Lemma steer_accepts_reversal (d : string) (s : Snake) (hx hy nx ny : Z) (rest : list pos) :
  body s = (hx, hy) :: (nx, ny) :: rest →
  Dict.get d DIRS = Some (- (hx - nx), - (hy - ny)) →
  steer d s = Ok (set_dir d s).
Proof.
  intros Hb Hd. rewrite (steer_long _ _ _ _ _ _ _ _ Hb Hd).
  rewrite bool_decide_eq_true_2; [done|].
  apply DIRS_cases in Hd. intros [= ? ?]. naive_solver lia.
Qed.

Lemma apply_cmd_alive (p : Z) (d : string) (w : Server) (s s' : Snake) :
  snake_of p w = Some s → alive s = true → steer d s = Ok s' →
  apply_cmd p d w = Ok (update_snake p (λ _, s') w).
Proof.
  unfold snake_of, apply_cmd. intros -> -> ->. done.
Qed.

Lemma handle_line_cmd (p : Z) (d : string) (v : pos) (w : Server) (msg : json) :
  msg_get msg "type" = Ok (JStr "cmd") →
  msg_get msg "dir" = Ok (JStr d) →
  Dict.get d DIRS = Some v →
  handle_line p (Parsed msg) w = apply_cmd p d w.
Proof.
  intros Ht Hd Hv. unfold handle_line. rewrite Ht. simpl.
  rewrite Hd. simpl. unfold Dict.mem. rewrite Hv. simpl. done.
Qed.

(** A value that is not an object ends the session. *)
Lemma session_step_not_object (p : Z) (msg : json) (w : Server) :
  (∀ kv, msg ≠ JObj kv) →
  session_step p (Line (Parsed msg)) w = (cleanup p w, Ended).
Proof. intros Hno. destruct msg; try done. by destruct (Hno kv). Qed.

(** An unparseable line, and an object that is no command, are skipped. *)
Lemma session_step_unparseable (p : Z) (w : Server) :
  session_step p (Line Unparseable) w = (w, Reading).
Proof. done. Qed.

Lemma session_step_other_type (p : Z) (kv : list (string * json)) (w : Server) :
  json_is_str (default JNull (Dict.get "type"%string kv)) "cmd" = false →
  session_step p (Line (Parsed (JObj kv))) w = (w, Reading).
Proof. intros H. unfold session_step, handle_line. simpl. by rewrite H. Qed.

Lemma set_dir_same (s : Snake) : set_dir (dir s) s = s.
Proof. by destruct s. Qed.

(** C4: the command rule. For a command naming a direction [d] of [DIRS], received for an
    alive snake [s], the session returns to reading with a state in which
    that snake keeps its pid, body, growth counter and alive flag, and
    nothing else has changed.  Its facing afterwards: a snake shorter than 2
    faces [d]; a longer one faces [d] when [DIRS[d]] differs from
    [body[0] - body[1]], whatever its current facing, and keeps the facing it
    had otherwise, the whole state being then as before.  A command that
    repeats the current facing always leaves the snake facing [d]: where the
    guard skips the assignment there is nothing to assign. *)
Theorem C4_command_rule (p : Z) (d : string) (v : pos) (w : Server) (s : Snake) (msg : json) :
  msg_get msg "type" = Ok (JStr "cmd") →
  msg_get msg "dir" = Ok (JStr d) →
  Dict.get d DIRS = Some v →
  snake_of p w = Some s → alive s = true →
  ∃ w' s',
    handle_line p (Parsed msg) w = Ok w' ∧
    snake_of p w' = Some s' ∧
    pid s' = pid s ∧ body s' = body s ∧ grow s' = grow s ∧ alive s' = true ∧
    (∀ q, q ≠ p → snake_of q w' = snake_of q w) ∧
    Dict.keys (snakes w') = Dict.keys (snakes w) ∧
    writers w' = writers w ∧ food w' = food w ∧
    next_pid w' = next_pid w ∧ players w' = players w ∧
    ((length (body s) < 2)%nat → dir s' = d) ∧
    (∀ hx hy nx ny rest, body s = (hx, hy) :: (nx, ny) :: rest →
       (v ≠ (hx - nx, hy - ny) → dir s' = d) ∧
       (v = (hx - nx, hy - ny) → dir s' = dir s ∧ w' = w)) ∧
    (d = dir s → dir s' = d ∧ w' = w).
Proof.
  intros Ht Hd Hv Hs Ha.
  rewrite (handle_line_cmd _ _ _ _ _ Ht Hd Hv).
  assert (Hrej : update_snake p (λ _, s) w = w).
  { unfold update_snake. rewrite dict_alter_id by done. by rewrite set_snakes_id. }
  assert (Hsame : d = dir s → update_snake p (λ _, set_dir d s) w = w).
  { intros ->. by rewrite set_dir_same. }
  assert (Hframe : ∀ s',
    (∀ q, q ≠ p → snake_of q (update_snake p (λ _, s') w) = snake_of q w) ∧
    snake_of p (update_snake p (λ _, s') w) = Some s' ∧
    Dict.keys (snakes (update_snake p (λ _, s') w)) = Dict.keys (snakes w)).
  { intros s'. split_and!.
    - intros q Hq. by rewrite snake_of_update, decide_False.
    - rewrite snake_of_update, decide_True by done. by rewrite Hs.
    - apply dict_keys_alter. }
  destruct (decide (length (body s) < 2)%nat) as [Hlen|Hlen].
  - rewrite (apply_cmd_alive _ _ _ _ _ Hs Ha (steer_short _ _ Hlen)).
    destruct (Hframe (set_dir d s)) as (Hothers & Hown & Hkeys).
    exists (update_snake p (λ _, set_dir d s) w), (set_dir d s).
    split_and!; try done.
    + intros hx hy nx ny rest Hb. rewrite Hb in Hlen. simpl in Hlen. lia.
    + intros Hcur. split; [done|]. by apply Hsame.
  - assert (∃ hx hy nx ny rest, body s = (hx, hy) :: (nx, ny) :: rest)
      as (hx & hy & nx & ny & rest & Hb).
    { destruct (body s) as [|[hx hy] [|[nx ny] rest]]; simpl in Hlen; try lia.
      by eexists _, _, _, _, _. }
    rewrite (apply_cmd_alive _ _ _ _ _ Hs Ha (steer_long _ _ _ _ _ _ _ _ Hb Hv)).
    case_bool_decide as Hne.
    + destruct (Hframe (set_dir d s)) as (Hothers & Hown & Hkeys).
      exists (update_snake p (λ _, set_dir d s) w), (set_dir d s).
      split_and!; try done.
      * intros hx' hy' nx' ny' rest' Hb'. rewrite Hb in Hb'.
        injection Hb' as <- <- <- <- <-. split; [done|].
        intros ->. done.
      * intros Hcur. split; [done|]. by apply Hsame.
    + rewrite Hrej. exists w, s.
      split_and!; try done.
      intros hx' hy' nx' ny' rest' Hb'. rewrite Hb in Hb'.
      injection Hb' as <- <- <- <- <-. split; [|done].
      intros Hv'. destruct Hne. congruence.
Qed.

Lemma C4_command_rule_witness :
  ∃ w' s',
    handle_line 1 (Parsed (JObj [("type", JStr "cmd"); ("dir", JStr "U")]%string)) ex_two_long
      = Ok w' ∧
    snake_of 1 w' = Some s' ∧ dir s' = "U"%string ∧ body s' = [(5, 5); (4, 5)] ∧
    writers w' = writers ex_two_long ∧ food w' = food ex_two_long.
Proof.
  destruct (C4_command_rule 1 "U" (0, -1) ex_two_long
    (mkSnake 1 [(5, 5); (4, 5)] "R" 0 true)
    (JObj [("type", JStr "cmd"); ("dir", JStr "U")]%string))
    as (w' & s' & Hh & Hs & _ & Hb & _ & _ & _ & _ & Hw & Hf & _ & _ & _ & Hlong & _);
    try reflexivity.
  exists w', s'. split_and!; try done.
  apply (Hlong 5 5 4 5 []); [reflexivity|]. intros [=].
Defined.

(** C1: on the snake of [ex_two_long], whose neck-to-head vector is (1,0), the command "L",
    whose vector is the inverse (-1,0), is accepted: the facing becomes "L".
    The direction that is refused is "R", the one the snake already moves in. *)
Theorem C1_reversal_accepted :
  let s := mkSnake 1 [(5, 5); (4, 5)] "R" 0 true in
  let cmd d := Parsed (JObj [("type", JStr "cmd"); ("dir", JStr d)]%string) in
  snake_of 1 ex_two_long = Some s ∧
  DIRS_at "L" = Ok (- (5 - 4), - (5 - 5)) ∧
  handle_line 1 (cmd "L") ex_two_long = Ok (update_snake 1 (set_dir "L") ex_two_long) ∧
  snake_of 1 (update_snake 1 (set_dir "L") ex_two_long)
    = Some (mkSnake 1 [(5, 5); (4, 5)] "L" 0 true) ∧
  handle_line 1 (cmd "R") ex_two_long = Ok ex_two_long.
Proof. repeat split. Qed.

(** C3: a line that parses to a value other than an object, here the number 5, is not
    discarded: the session of player 1 ends, its snake is marked dead and
    its transport is unregistered. *)
Theorem C3_non_object_ends_session :
  session_step 1 (Line (Parsed (JNum 5))) ex_two_long =
    (mkServer [(10%nat, 1)] [] [(1, mkSnake 1 [(5, 5); (4, 5)] "R" 0 false)] 2 ∅, Ended)
  ∧ session_step 1 (Line (Parsed (JObj [("type", JStr "cmd"); ("dir", JArr [])]%string)))
      ex_two_long = (cleanup 1 ex_two_long, Ended)
  ∧ session_step 1 (Line Unparseable) ex_two_long = (ex_two_long, Reading).
Proof. repeat split. Qed.

(** * The physics step, one snake at a time *)

(** Inversion of a bind in the error monad. *)
Lemma bind_Ok {A B} (m : res A) (f : A → res B) (b : B) :
  m ≫= f = Ok b → ∃ a, m = Ok a ∧ f a = Ok b.
Proof. destruct m; simpl; [by eauto|done]. Qed.

Lemma of_option_Ok {A} (e : exn) (o : option A) (a : A) :
  of_option e o = Ok a → o = Some a.
Proof. destruct o; simpl; congruence. Qed.

Ltac inv_bind H :=
  let a := fresh "a" in
  let Ha := fresh "H" a in
  apply bind_Ok in H as (a & Ha & H).

Lemma same_frame_refl w : same_frame w w.
Proof. done. Qed.

Lemma same_frame_trans w1 w2 w3 :
  same_frame w1 w2 → same_frame w2 w3 → same_frame w1 w3.
Proof. unfold same_frame. intros (?&?&?&?) (?&?&?&?). split_and!; congruence. Qed.

Lemma same_frame_update p f w : same_frame w (update_snake p f w).
Proof. unfold same_frame. simpl. by rewrite dict_keys_alter. Qed.

Lemma same_frame_food fd w : same_frame w (set_food fd w).
Proof. done. Qed.

(** A pair-wise induction on the random supply, as [spawn_food] uses it. *)
Lemma rng_pair_ind (P : rng → Prop) :
  P [] → (∀ z, P [z]) → (∀ zx zy r, P r → P (zx :: zy :: r)) → ∀ r, P r.
Proof.
  intros H0 H1 H2 r. cut (P r ∧ ∀ z, P (z :: r)); [by intros []|].
  induction r as [|z r [IH1 IH2]]; split; auto.
Qed.

Lemma mod_in_bounds (zx zy : Z) : in_bounds (zx `mod` WIDTH, zy `mod` HEIGHT).
Proof.
  unfold in_bounds, WIDTH, HEIGHT. simpl.
  pose proof (Z.mod_pos_bound zx 30). pose proof (Z.mod_pos_bound zy 15). lia.
Qed.

(** [spawn_food] adds one cell: in the grid, on no snake (dead ones
    included), not holding food already. *)
Lemma spawn_food_spec (r r' : rng) (w w' : Server) :
  spawn_food r w = Ok (w', r') →
  ∃ c, w' = set_food ({[c]} ∪ food w) w ∧ in_bounds c ∧ (c ∉ food w) ∧
       on_any_snake c (snakes w) = false ∧ (length r' < length r)%nat.
Proof.
  revert r'. induction r as [| |zx zy r IH] using rng_pair_ind; intros r'; try done.
  simpl. destruct (on_any_snake _ _) eqn:Hs.
  { intros (c & ? & ? & ? & ? & ?)%IH. exists c. split_and!; auto with lia. }
  case_bool_decide as Hf.
  { intros (c & ? & ? & ? & ? & ?)%IH. exists c. split_and!; auto with lia. }
  intros [= <- <-]. eexists. split_and!; eauto using mod_in_bounds with lia.
Qed.

Lemma on_any_snake_true (c : pos) (ss : Dict.t Z Snake) :
  on_any_snake c ss = true ↔ ∃ s, s ∈ Dict.values ss ∧ c ∈ body s.
Proof.
  unfold on_any_snake. rewrite existsb_exists. split.
  - intros (s & Hin & Hc). exists s. split; [by apply list_elem_of_In|].
    by apply bool_decide_eq_true in Hc.
  - intros (s & Hin & Hc). exists s. split; [by apply list_elem_of_In|].
    by apply bool_decide_eq_true.
Qed.


(** Step 5. *)
Lemma check_food_miss p head r w :
  head ∉ food w → check_food p head r w = Ok (w, r).
Proof. intros. unfold check_food. by rewrite bool_decide_eq_false_2. Qed.

Lemma check_food_hit p head r w w' r' :
  head ∈ food w → check_food p head r w = Ok (w', r') →
  ∃ c, w' = set_food ({[c]} ∪ food w ∖ {[head]})
              (update_snake p (λ s, set_grow (grow s + 3) s) w) ∧
       in_bounds c ∧ (c ∉ food w ∖ {[head]}) ∧
       on_any_snake c (snakes (update_snake p (λ s, set_grow (grow s + 3) s) w)) = false.
Proof.
  intros Hin. unfold check_food. rewrite bool_decide_eq_true_2 by done.
  intros (c & -> & ? & ? & ? & _)%spawn_food_spec. by exists c.
Qed.

Lemma check_food_snake p q head r w w' r' :
  check_food p head r w = Ok (w', r') →
  same_frame w w' ∧
  snake_of q w' =
    if decide (p = q) then
      (λ s, if bool_decide (head ∈ food w) then set_grow (grow s + 3) s else s) <$> snake_of q w
    else snake_of q w.
Proof.
  destruct (decide (head ∈ food w)) as [Hin|Hnin].
  - intros (c & -> & _)%check_food_hit; [|done]. split.
    { eapply same_frame_trans; [apply same_frame_update|apply same_frame_food]. }
    unfold snake_of. simpl. rewrite dict_get_alter.
    case_decide; [|done]. rewrite bool_decide_eq_true_2 by done. done.
  - rewrite check_food_miss by done. intros [= <- <-]. split; [done|].
    case_decide; [|done]. rewrite bool_decide_eq_false_2 by done.
    by destruct (snake_of q w).
Qed.

(** Step 6. *)
Lemma handle_tail_snake p q w w' :
  handle_tail p w = Ok w' →
  same_frame w w' ∧ food w' = food w ∧
  snake_of q w' =
    if decide (p = q) then
      (λ s, if bool_decide (0 < grow s) then set_grow (grow s - 1) s
            else set_body (removelast (body s)) s) <$> snake_of q w
    else snake_of q w.
Proof.
  unfold handle_tail. intros H. inv_bind H. apply of_option_Ok in Ha.
  case_bool_decide as Hg.
  - injection H as <-. split; [apply same_frame_update|]. split; [done|].
    rewrite snake_of_update. case_decide; [subst q|done].
    unfold snake_of. rewrite Ha. simpl. by rewrite bool_decide_eq_true_2.
  - inv_bind H. injection H as <-. split; [apply same_frame_update|]. split; [done|].
    rewrite snake_of_update. case_decide; [subst q|done].
    unfold snake_of. rewrite Ha. simpl. rewrite bool_decide_eq_false_2 by done.
    unfold body_pop in Ha0. destruct (body a); [done|]. by injection Ha0 as <-.
Qed.

(** ** The loop body *)

Lemma tick_snake_dead p w r k s :
  snake_of p w = Some s → alive s = false → tick_snake p (w, r, k) = Ok (w, r, k).
Proof.
  unfold snake_of, tick_snake. intros Hs Ha. rewrite Hs. simpl. by rewrite Ha.
Qed.

Lemma tick_snake_crash p w r k s head :
  snake_of p w = Some s → alive s = true → next_head s = Ok head →
  collision head (snakes w) = true →
  tick_snake p (w, r, k) = Ok (update_snake p (set_alive false) w, r, k ++ [p]).
Proof.
  unfold snake_of, tick_snake. intros Hs Ha Hn Hc.
  rewrite Hs. simpl. rewrite Ha. simpl. rewrite Hn. simpl. by rewrite Hc.
Qed.

Lemma moved_eq (ate : bool) (head : pos) (s : Snake) :
  (λ s, if bool_decide (0 < grow s) then set_grow (grow s - 1) s
        else set_body (removelast (body s)) s)
    ((λ s, if ate then set_grow (grow s + 3) s else s) (set_body (head :: body s) s))
  = moved ate head s.
Proof.
  unfold moved. destruct ate; simpl; by case_bool_decide.
Qed.

Lemma moved_alive (ate : bool) (head : pos) (s : Snake) :
  alive (moved ate head s) = alive s.
Proof. unfold moved. cbv zeta. by destruct (bool_decide (0 < _)). Qed.

Lemma moved_dir (ate : bool) (head : pos) (s : Snake) :
  dir (moved ate head s) = dir s.
Proof. unfold moved. cbv zeta. by destruct (bool_decide (0 < _)). Qed.

Lemma tick_snake_move p w r k s head w' r' k' :
  snake_of p w = Some s → alive s = true → next_head s = Ok head →
  collision head (snakes w) = false →
  tick_snake p (w, r, k) = Ok (w', r', k') →
  k' = k ∧ same_frame w w' ∧
  snake_of p w' = Some (moved (bool_decide (head ∈ food w)) head s) ∧
  (∀ q, q ≠ p → snake_of q w' = snake_of q w).
Proof.
  unfold snake_of at 1. unfold tick_snake. intros Hs Hal Hn Hc.
  rewrite Hs. simpl. rewrite Hal. simpl. rewrite Hn. simpl. rewrite Hc.
  intros H. inv_bind H. destruct a as [w2 r2]. inv_bind H. injection H as <- <- <-.
  set (w1 := update_snake p (λ s0, set_body (head :: body s0) s0) w) in *.
  split; [done|].
  pose proof (check_food_snake p p _ _ _ _ _ Ha) as [Hf2 Hp2].
  pose proof (handle_tail_snake p p _ _ Ha0) as (Hf3 & _ & Hp3).
  split; [|split].
  - eapply same_frame_trans; [apply same_frame_update|].
    eapply same_frame_trans; eauto.
  - rewrite Hp3, Hp2. rewrite !decide_True by done.
    unfold w1. rewrite snake_of_update, decide_True by done.
    unfold snake_of. rewrite Hs. simpl. f_equal.
    rewrite <- moved_eq. simpl. done.
  - intros q Hq.
    pose proof (check_food_snake p q _ _ _ _ _ Ha) as [_ Hq2].
    pose proof (handle_tail_snake p q _ _ Ha0) as (_ & _ & Hq3).
    rewrite Hq3, Hq2. rewrite !decide_False by done.
    unfold w1. by rewrite snake_of_update, decide_False.
Qed.

(** Every way the loop body can return. *)
Lemma tick_snake_inv p w r k w' r' k' :
  tick_snake p (w, r, k) = Ok (w', r', k') →
  ∃ s, snake_of p w = Some s ∧
    ((alive s = false ∧ w' = w ∧ r' = r ∧ k' = k) ∨
     (alive s = true ∧ ∃ head, next_head s = Ok head ∧
        if collision head (snakes w)
        then w' = update_snake p (set_alive false) w ∧ r' = r ∧ k' = k ++ [p]
        else k' = k ∧ snake_of p w' = Some (moved (bool_decide (head ∈ food w)) head s))).
Proof.
  intros H. pose proof H as H0. unfold tick_snake in H0.
  inv_bind H0. apply of_option_Ok in Ha. exists a. split; [done|].
  destruct (alive a) eqn:Hal; simpl in H0.
  - right. split; [done|]. inv_bind H0. exists a0. split; [done|].
    destruct (collision a0 (snakes w)) eqn:Hc.
    + by injection H0 as <- <- <-.
    + by destruct (tick_snake_move _ _ _ _ _ _ _ _ _ Ha Hal Ha0 Hc H) as (? & _ & ? & _).
  - left. by injection H0 as <- <- <-.
Qed.

Lemma tick_snake_frame p w r k w' r' k' :
  tick_snake p (w, r, k) = Ok (w', r', k') →
  same_frame w w' ∧ ∀ q, q ≠ p → snake_of q w' = snake_of q w.
Proof.
  intros H. pose proof H as H0. unfold tick_snake in H0.
  inv_bind H0. apply of_option_Ok in Ha.
  destruct (alive a) eqn:Hal; simpl in H0.
  - inv_bind H0. destruct (collision a0 (snakes w)) eqn:Hc.
    + injection H0 as <- <- <-. split; [apply same_frame_update|].
      intros q Hq. by rewrite snake_of_update, decide_False.
    + by destruct (tick_snake_move _ _ _ _ _ _ _ _ _ Ha Hal Ha0 Hc H) as (? & ? & ? & ?).
  - by injection H0 as <- <- <-.
Qed.

(** ** The loop over the snakes *)

Lemma tick_loop_app ps1 ps2 st :
  tick_loop (ps1 ++ ps2) st = tick_loop ps1 st ≫= tick_loop ps2.
Proof.
  revert st. induction ps1 as [|p ps1 IH]; intros st; simpl; [done|].
  destruct (tick_snake p st); simpl; [apply IH|done].
Qed.

Lemma tick_loop_frame ps w r k w' r' k' :
  tick_loop ps (w, r, k) = Ok (w', r', k') →
  same_frame w w' ∧ ∀ q, q ∉ ps → snake_of q w' = snake_of q w.
Proof.
  revert w r k. induction ps as [|p ps IH]; intros w r k; simpl.
  - by intros [= <- <- <-].
  - intros H. inv_bind H. destruct a as [[w1 r1] k1].
    apply tick_snake_frame in Ha as [Hf1 Hq1]. apply IH in H as [Hf2 Hq2].
    split; [by eapply same_frame_trans|].
    intros q Hq. rewrite Hq2, Hq1; set_solver.
Qed.

(** A dead snake is left as it is. *)
Lemma tick_snake_dead_stays p q w r k w' r' k' s :
  tick_snake p (w, r, k) = Ok (w', r', k') →
  snake_of q w = Some s → alive s = false → snake_of q w' = Some s.
Proof.
  intros H Hs Hd. destruct (decide (q = p)) as [->|Hne].
  - rewrite (tick_snake_dead _ _ _ _ _ Hs Hd) in H. by injection H as <- <- <-.
  - apply tick_snake_frame in H as [_ Hq]. by rewrite Hq.
Qed.

Lemma tick_loop_dead_stays ps q w r k w' r' k' s :
  tick_loop ps (w, r, k) = Ok (w', r', k') →
  snake_of q w = Some s → alive s = false → snake_of q w' = Some s.
Proof.
  revert w r k. induction ps as [|p ps IH]; intros w r k; simpl.
  - by intros [= <- <- <-].
  - intros H Hs Hd. inv_bind H. destruct a as [[w1 r1] k1].
    eapply IH; [done| |done]. by eapply tick_snake_dead_stays.
Qed.

Lemma before_not_in p ps : p ∉ before p ps.
Proof.
  induction ps as [|q ps IH]; simpl; [set_solver|].
  case_decide; set_solver.
Qed.

Lemma before_split p ps : p ∈ ps → ∃ ps2, ps = before p ps ++ p :: ps2.
Proof.
  induction ps as [|q ps IH]; simpl; [by intros ?%elem_of_nil|].
  case_decide as Hq; [subst q; by eauto|].
  intros [?|Hin]%elem_of_cons; [congruence|].
  destruct (IH Hin) as [ps2 Hps2]. exists ps2. simpl. by f_equal.
Qed.

Lemma before_split_NoDup p ps :
  NoDup ps → p ∈ ps → ∃ ps2, ps = before p ps ++ p :: ps2 ∧ p ∉ ps2.
Proof.
  intros Hnd Hin. destruct (before_split p ps Hin) as [ps2 Heq].
  exists ps2. split; [done|]. rewrite Heq in Hnd.
  apply NoDup_app in Hnd as (_ & _ & [? _]%NoDup_cons). done.
Qed.

(** The kills of a pass: each snake of the pass that was alive before it
    and is dead after it, once. *)
Lemma tick_loop_kills ps w r k w' r' k' :
  NoDup ps →
  tick_loop ps (w, r, k) = Ok (w', r', k') →
  ∃ ks, k' = k ++ ks ∧ NoDup ks ∧
    ∀ q, q ∈ ks ↔ q ∈ ps ∧ is_alive q w = true ∧ is_alive q w' = false.
Proof.
  revert w r k. induction ps as [|p ps IH]; intros w r k Hnd; simpl.
  - intros [= <- <- <-]. exists []. rewrite app_nil_r.
    split_and!; [done|constructor|]. set_solver.
  - apply NoDup_cons in Hnd as [Hp Hnd]. intros H. inv_bind H.
    destruct a as [[w1 r1] k1].
    pose proof (tick_loop_frame _ _ _ _ _ _ _ H) as [_ Hfr2].
    pose proof (tick_snake_frame _ _ _ _ _ _ _ Ha) as [_ Hfr1].
    destruct (IH _ _ _ Hnd H) as (ks2 & -> & Hnd2 & Hks2). clear IH.
    assert (Hp2 : p ∉ ks2) by (intros ?%Hks2; tauto).
    assert (Hother : ∀ q, q ≠ p →
      (q ∈ ks2 ↔ q ∈ p :: ps ∧ is_alive q w = true ∧ is_alive q w' = false)).
    { intros q Hq. rewrite Hks2. unfold is_alive. rewrite (Hfr1 q Hq). set_solver. }
    apply tick_snake_inv in Ha as (s & Hs & [(Hd & -> & -> & ->)|(Hal & head & Hh & Hc)]).
    + exists ks2. split_and!; [done..|]. intros q.
      destruct (decide (q = p)) as [->|Hq]; [|by apply Hother].
      unfold is_alive at 1. rewrite Hs, Hd.
      split; [by intros ?%Hp2|]. by intros (_ & ? & _).
    + destruct (collision head (snakes w)).
      * destruct Hc as (-> & -> & ->). exists (p :: ks2).
        split_and!; [by rewrite <- app_assoc|by apply NoDup_cons|].
        intros q. destruct (decide (q = p)) as [->|Hq].
        -- unfold is_alive. rewrite (Hfr2 p Hp), snake_of_update, decide_True by done.
           rewrite Hs. simpl. set_solver.
        -- rewrite <- Hother by done. set_solver.
      * destruct Hc as [-> Hm]. exists ks2. split_and!; [done..|]. intros q.
        destruct (decide (q = p)) as [->|Hq]; [|by apply Hother].
        unfold is_alive at 2. rewrite (Hfr2 p Hp), Hm.
        assert (alive (moved (bool_decide (head ∈ food w)) head s) = true)
          by (by rewrite moved_alive).
        split; [done|]. intros (_ & _ & ?). congruence.
Qed.

(** The pass seen from the snake of [p]: the pids before it, its own turn,
    the pids after it. *)
Lemma tick_loop_turn p w r w' r' k' :
  NoDup (Dict.keys (snakes w)) → p ∈ Dict.keys (snakes w) →
  tick_loop (Dict.keys (snakes w)) (w, r, []) = Ok (w', r', k') →
  ∃ wm rm km w1 r1 k1 ps2,
    Dict.keys (snakes w) = before p (Dict.keys (snakes w)) ++ p :: ps2 ∧ (p ∉ ps2) ∧
    at_turn p r w = Ok (wm, rm, km) ∧
    tick_snake p (wm, rm, km) = Ok (w1, r1, k1) ∧
    tick_loop ps2 (w1, r1, k1) = Ok (w', r', k') ∧
    snake_of p wm = snake_of p w ∧
    snake_of p w' = snake_of p w1 ∧
    (∀ q, q ∈ ps2 → snake_of q wm = snake_of q w) ∧
    (∀ q, q ∈ before p (Dict.keys (snakes w)) → snake_of q wm = snake_of q w').
Proof.
  intros Hnd Hin H.
  destruct (before_split_NoDup p _ Hnd Hin) as (ps2 & Heq & Hp2).
  pose proof (before_not_in p (Dict.keys (snakes w))) as Hp1.
  rewrite Heq, tick_loop_app in H. fold (at_turn p r w) in H.
  inv_bind H. destruct a as [[wm rm] km]. simpl in H. inv_bind H.
  destruct a as [[w1 r1] k1].
  exists wm, rm, km, w1, r1, k1, ps2.
  pose proof (tick_loop_frame _ _ _ _ _ _ _ Ha) as [_ Hfr1].
  pose proof (tick_snake_frame _ _ _ _ _ _ _ Ha0) as [_ Hfr].
  pose proof (tick_loop_frame _ _ _ _ _ _ _ H) as [_ Hfr2].
  split_and!; try done.
  - by apply Hfr1.
  - by apply Hfr2.
  - intros q Hq. apply Hfr1. intros Hq1. rewrite Heq in Hnd.
    apply NoDup_app in Hnd as (_ & Hdis & _). apply (Hdis q Hq1). set_solver.
  - intros q Hq. rewrite Heq in Hnd.
    apply NoDup_app in Hnd as (_ & Hdis & _).
    rewrite Hfr2, Hfr; [done| |]; intros ?; apply (Hdis q Hq); set_solver.
Qed.

(** * The physics step as a whole *)

Lemma game_tick_inv broken r w w' r' evs :
  game_tick broken r w = Ok (w', r', evs) →
  ∃ kills, tick_loop (Dict.keys (snakes w)) (w, r, []) = Ok (w', r', kills) ∧
           evs = notify_dead broken kills w'.
Proof.
  unfold game_tick. intros H. inv_bind H. destruct a as [[w1 r1] k1].
  injection H as <- <- <-. by exists k1.
Qed.

Lemma game_tick_loop broken r w w' r' kills :
  tick_loop (Dict.keys (snakes w)) (w, r, []) = Ok (w', r', kills) →
  game_tick broken r w = Ok (w', r', notify_dead broken kills w').
Proof. unfold game_tick. by intros ->. Qed.

Lemma snake_of_keys p w s : snake_of p w = Some s → p ∈ Dict.keys (snakes w).
Proof. apply dict_get_Some_keys. Qed.

Lemma snake_of_values p w s : snake_of p w = Some s → s ∈ Dict.values (snakes w).
Proof. apply dict_get_Some_values. Qed.

(** The outcome of the pass for a snake that was alive before it: decided
    at its turn, by the scan over the snakes as they are then. *)
Lemma tick_loop_alive p w r w' r' k' s :
  NoDup (Dict.keys (snakes w)) →
  snake_of p w = Some s → alive s = true →
  tick_loop (Dict.keys (snakes w)) (w, r, []) = Ok (w', r', k') →
  ∃ wm rm km head,
    at_turn p r w = Ok (wm, rm, km) ∧ snake_of p wm = Some s ∧
    next_head s = Ok head ∧
    (∀ q, q ∈ before p (Dict.keys (snakes w)) → snake_of q wm = snake_of q w') ∧
    (∀ q, q ∉ before p (Dict.keys (snakes w)) → snake_of q wm = snake_of q w) ∧
    snake_of p w' =
      Some (if collision head (snakes wm) then set_alive false s
            else moved (bool_decide (head ∈ food wm)) head s).
Proof.
  intros Hnd Hs Hal H.
  destruct (tick_loop_turn p w r w' r' k' Hnd (snake_of_keys _ _ _ Hs) H)
    as (wm & rm & km & w1 & r1 & k1 & ps2 & Heq & Hp2 & Hat & Hturn & _ & Hpm & Hp' & _ & Hbef).
  rewrite Hs in Hpm.
  apply tick_snake_inv in Hturn as (s0 & Hs0 & Hcases).
  assert (s0 = s) as -> by congruence.
  destruct Hcases as [(? & _)|(_ & head & Hh & Hc)]; [congruence|].
  exists wm, rm, km, head. split_and!; try done.
  - intros q Hq. unfold at_turn in Hat. by apply (tick_loop_frame _ _ _ _ _ _ _ Hat).
  - rewrite Hp'. destruct (collision head (snakes wm)).
    + destruct Hc as (-> & _ & _). rewrite snake_of_update, decide_True by done.
      by rewrite Hs0.
    + by destruct Hc as [_ ->].
Qed.



(** C2 (as stated) fails on [ex_facing]: both snakes head for (4,5), which is on no snake
    before the step, yet after the step snake 2 is dead and is sent its
    death notice: it was tested against snake 1 after snake 1 had moved. *)
Lemma C2_counterexample :
  next_head (mkSnake 1 [(3, 5)] "R" 0 true) = Ok (4, 5) ∧
  next_head (mkSnake 2 [(5, 5)] "L" 0 true) = Ok (4, 5) ∧
  collision (4, 5) (snakes ex_facing) = false ∧
  game_tick no_faults [] ex_facing =
    Ok (mkServer [] [(1, 20%nat); (2, 21%nat)]
          [(1, mkSnake 1 [(4, 5)] "R" 0 true); (2, mkSnake 2 [(5, 5)] "L" 0 false)] 3 ∅,
        [], [Sent 21%nat (MsgDead 2)]).
Proof. repeat split. Qed.

(** C2 (amended): the snakes are handled one after the other, in the order of the
    snake dictionary.  When the turn of an alive snake comes, the snakes
    before it in that order are already in their state of after the step
    (moved, or dead), the snake itself and those after it are as before
    the step, and the snake dies exactly when its next head lies on a
    snake that is alive in that mixed state. *)
Theorem C2_collision_is_sequential (p : Z) (w : Server) (s : Snake) (r : rng)
    (w' : Server) (r' : rng) (kills : list Z) :
  NoDup (Dict.keys (snakes w)) →
  snake_of p w = Some s → alive s = true →
  tick_loop (Dict.keys (snakes w)) (w, r, []) = Ok (w', r', kills) →
  ∃ wm rm km head,
    at_turn p r w = Ok (wm, rm, km) ∧ next_head s = Ok head ∧
    (∀ q, q ∈ before p (Dict.keys (snakes w)) → snake_of q wm = snake_of q w') ∧
    (∀ q, q ∉ before p (Dict.keys (snakes w)) → snake_of q wm = snake_of q w) ∧
    is_alive p w' = negb (collision head (snakes wm)) ∧
    (p ∈ kills ↔ collision head (snakes wm) = true).
Proof.
  intros Hnd Hs Hal H.
  destruct (tick_loop_alive _ _ _ _ _ _ _ Hnd Hs Hal H)
    as (wm & rm & km & head & Hat & Hsm & Hh & Hbef & Haft & Hp').
  exists wm, rm, km, head.
  assert (Hlive : is_alive p w' = negb (collision head (snakes wm))).
  { unfold is_alive. rewrite Hp'. destruct (collision head (snakes wm)); simpl; [done|].
    by rewrite moved_alive. }
  split_and!; try done.
  destruct (tick_loop_kills _ _ _ _ _ _ _ Hnd H) as (ks & -> & _ & Hks). simpl.
  rewrite Hks, Hlive. unfold is_alive. rewrite Hs, Hal.
  pose proof (snake_of_keys _ _ _ Hs).
  destruct (collision head (snakes wm)); naive_solver.
Qed.

Lemma C2_collision_is_sequential_witness :
  ∃ wm rm km head,
    at_turn 2 [] ex_facing = Ok (wm, rm, km) ∧
    next_head (mkSnake 2 [(5, 5)] "L" 0 true) = Ok head ∧
    (∀ q, q ∈ before 2 (Dict.keys (snakes ex_facing)) →
       snake_of q wm = snake_of q
         (mkServer [] [(1, 20%nat); (2, 21%nat)]
            [(1, mkSnake 1 [(4, 5)] "R" 0 true); (2, mkSnake 2 [(5, 5)] "L" 0 false)] 3 ∅)) ∧
    (∀ q, q ∉ before 2 (Dict.keys (snakes ex_facing)) →
       snake_of q wm = snake_of q ex_facing) ∧
    is_alive 2
      (mkServer [] [(1, 20%nat); (2, 21%nat)]
         [(1, mkSnake 1 [(4, 5)] "R" 0 true); (2, mkSnake 2 [(5, 5)] "L" 0 false)] 3 ∅)
      = negb (collision head (snakes wm)) ∧
    (2 ∈ [2] ↔ collision head (snakes wm) = true).
Proof.
  apply (C2_collision_is_sequential 2 ex_facing (mkSnake 2 [(5, 5)] "L" 0 true) []
    _ [] [2]); try reflexivity.
  compute_done.
Defined.

(** ** Death notices *)

Lemma notify_dead_events broken kills w e :
  e ∈ notify_dead broken kills w →
  ∃ p wr, p ∈ kills ∧ Dict.get p (writers w) = Some wr ∧
          ev_handle e = wr ∧ ev_msg e = MsgDead p.
Proof.
  unfold notify_dead. intros Hin.
  apply list_elem_of_In, in_flat_map in Hin as (p & Hp%list_elem_of_In & He).
  exists p. destruct (Dict.get p (writers w)) as [wr|]; [|done].
  exists wr. destruct He as [<-|[]]. split_and!; try done;
    unfold transport_write; by destruct (broken wr).
Qed.

Lemma notify_dead_count broken kills w p :
  NoDup kills →
  length (List.filter (is_death_notice p) (notify_dead broken kills w)) =
  if bool_decide (p ∈ kills) && Dict.mem p (writers w) then 1%nat else 0%nat.
Proof.
  induction kills as [|q kills IH]; [done|].
  intros [Hq Hnd]%NoDup_cons. specialize (IH Hnd).
  unfold notify_dead in *. simpl. rewrite List.filter_app, length_app, IH. clear IH.
  destruct (decide (q = p)) as [->|Hne].
  - rewrite (bool_decide_eq_false_2 (p ∈ kills)) by done.
    rewrite (bool_decide_eq_true_2 (p ∈ p :: kills)) by set_solver.
    unfold Dict.mem. simpl.
    destruct (Dict.get p (writers w)) as [wr|]; simpl; [|done].
    unfold transport_write, is_death_notice.
    destruct (broken wr); simpl; by rewrite bool_decide_eq_true_2.
  - assert (bool_decide (p ∈ q :: kills) = bool_decide (p ∈ kills)) as ->.
    { apply bool_decide_ext. set_solver. }
    destruct (Dict.get q (writers w)) as [wr|]; simpl; [|done].
    unfold transport_write, is_death_notice.
    destruct (broken wr); simpl; by rewrite bool_decide_eq_false_2.
Qed.

Lemma notify_dead_attempts broken broken' kills w :
  (λ e, (ev_handle e, ev_msg e)) <$> notify_dead broken kills w =
  (λ e, (ev_handle e, ev_msg e)) <$> notify_dead broken' kills w.
Proof.
  induction kills as [|q kills IH]; [done|].
  unfold notify_dead in *. simpl. rewrite !fmap_app, IH. f_equal.
  destruct (Dict.get q (writers w)) as [wr|]; [|done]. simpl.
  unfold transport_write. by destruct (broken wr), (broken' wr).
Qed.

(** C8: the snakes that die in a step are queued once each; the death notice of
    each goes to the transport registered under its own pid and to no other,
    once when there is one and not at all otherwise; whether a write fails
    changes nothing but the outcome of that write. *)
Theorem C8_death_notices (broken : faults) (r : rng) (w w' : Server) (r' : rng)
    (evs : list io_event) :
  NoDup (Dict.keys (snakes w)) →
  game_tick broken r w = Ok (w', r', evs) →
  ∃ kills,
    tick_loop (Dict.keys (snakes w)) (w, r, []) = Ok (w', r', kills) ∧
    NoDup kills ∧
    (∀ p, p ∈ kills ↔ is_alive p w = true ∧ is_alive p w' = false) ∧
    evs = notify_dead broken kills w' ∧ writers w' = writers w ∧
    (∀ e, e ∈ evs → ∃ p wr, p ∈ kills ∧ Dict.get p (writers w) = Some wr ∧
                            ev_handle e = wr ∧ ev_msg e = MsgDead p) ∧
    (∀ p, length (List.filter (is_death_notice p) evs) =
          if bool_decide (p ∈ kills) && Dict.mem p (writers w) then 1%nat else 0%nat) ∧
    (∀ broken', ∃ evs', game_tick broken' r w = Ok (w', r', evs') ∧
       (λ e, (ev_handle e, ev_msg e)) <$> evs' = (λ e, (ev_handle e, ev_msg e)) <$> evs).
Proof.
  intros Hnd (kills & Hloop & ->)%game_tick_inv. exists kills.
  destruct (tick_loop_kills _ _ _ _ _ _ _ Hnd Hloop) as (ks & Hk & Hndk & Hks).
  simpl in Hk. subst ks.
  pose proof (tick_loop_frame _ _ _ _ _ _ _ Hloop) as [(_ & Hw & _ & _) _].
  split_and!; try done.
  - intros p. rewrite Hks. split; [tauto|]. intros [Ha Hd]. split_and!; try done.
    unfold is_alive in Ha. destruct (snake_of p w) eqn:E; [|done].
    by eapply snake_of_keys.
  - intros e He. rewrite <- Hw. by eapply notify_dead_events.
  - intros p. rewrite <- Hw. by apply notify_dead_count.
  - intros broken'. eexists. split; [by apply game_tick_loop|].
    apply notify_dead_attempts.
Qed.

Lemma C8_death_notices_witness :
  ∃ kills,
    tick_loop (Dict.keys (snakes ex_facing)) (ex_facing, [], []) =
      Ok (mkServer [] [(1, 20%nat); (2, 21%nat)]
            [(1, mkSnake 1 [(4, 5)] "R" 0 true); (2, mkSnake 2 [(5, 5)] "L" 0 false)] 3 ∅,
          [], kills) ∧
    NoDup kills ∧ [Sent 21%nat (MsgDead 2)] = notify_dead no_faults kills
      (mkServer [] [(1, 20%nat); (2, 21%nat)]
            [(1, mkSnake 1 [(4, 5)] "R" 0 true); (2, mkSnake 2 [(5, 5)] "L" 0 false)] 3 ∅).
Proof.
  destruct (C8_death_notices no_faults [] ex_facing
    (mkServer [] [(1, 20%nat); (2, 21%nat)]
       [(1, mkSnake 1 [(4, 5)] "R" 0 true); (2, mkSnake 2 [(5, 5)] "L" 0 false)] 3 ∅)
    [] [Sent 21%nat (MsgDead 2)]) as (kills & H1 & H2 & _ & H4 & _);
    [compute_done|reflexivity|].
  exists kills. split_and!; assumption.
Defined.

(** * The state invariant *)

Lemma safe_bind {A B} (Q : A → Prop) (P : B → Prop) (m : res A) (f : A → res B) :
  safe Q m → (∀ a, Q a → safe P (f a)) → safe P (m ≫= f).
Proof. destruct m; simpl; auto. Qed.

Lemma safe_mono {A} (P Q : A → Prop) (m : res A) :
  safe P m → (∀ a, P a → Q a) → safe Q m.
Proof. destruct m; simpl; auto. Qed.

Lemma safe_Ok {A} (P : A → Prop) (m : res A) (a : A) : safe P m → m = Ok a → P a.
Proof. by intros H ->. Qed.

Lemma snake_ok_set_dir d s : Dict.mem d DIRS = true → snake_ok s → snake_ok (set_dir d s).
Proof.
  intros Hd (? & ? & ? & ?). split_and!; try done. simpl.
  unfold Dict.mem in Hd. by apply bool_decide_eq_true in Hd.
Qed.

Lemma snake_ok_set_alive a s : snake_ok s → snake_ok (set_alive a s).
Proof. by intros (? & ? & ? & ?). Qed.

Lemma snake_ok_set_grow g s : 0 ≤ g → snake_ok s → snake_ok (set_grow g s).
Proof. by intros ? (? & ? & ? & ?). Qed.

Lemma snake_ok_cons head s : in_bounds head → snake_ok s → snake_ok (set_body (head :: body s) s).
Proof. intros ? (? & ? & ? & ?). split_and!; try done. simpl. by constructor. Qed.

Lemma snake_ok_init p zx zy d :
  Dict.mem d DIRS = true → snake_ok (Snake_init p (zx `mod` WIDTH) (zy `mod` HEIGHT) d).
Proof.
  intros Hd. split_and!; simpl; try done.
  - constructor; [apply mod_in_bounds|constructor].
  - unfold Dict.mem in Hd. by apply bool_decide_eq_true in Hd.
Qed.

Lemma removelast_nonempty {A} (x y : A) (l : list A) : removelast (x :: y :: l) ≠ [].
Proof. done. Qed.

Lemma Forall_removelast {A} (P : A → Prop) (l : list A) :
  Forall P l → Forall P (removelast l).
Proof.
  induction 1 as [|x l Hx Hl IH]; simpl; [constructor|].
  destruct l; [constructor|]. by constructor.
Qed.

Lemma snake_ok_pop s :
  (2 ≤ length (body s))%nat → snake_ok s → snake_ok (set_body (removelast (body s)) s).
Proof.
  intros Hlen (? & ? & ? & ?). split_and!; try done; simpl.
  - destruct (body s) as [|x [|y l]]; simpl in *; try lia. done.
  - by apply Forall_removelast.
Qed.

Lemma state_ok_update p f w :
  state_ok w →
  (∀ s, snake_of p w = Some s → snake_ok s → snake_ok (f s)) →
  state_ok (update_snake p f w).
Proof.
  intros [Hs Hf] Hok. split; [|done]. simpl. by apply dict_Forall_alter.
Qed.

Lemma state_ok_snake p w s : state_ok w → snake_of p w = Some s → snake_ok s.
Proof.
  intros [Hs _] Hp. rewrite Forall_forall in Hs. apply Hs.
  by eapply snake_of_values.
Qed.

Lemma state_ok_food fd w :
  state_ok w → set_Forall in_bounds fd → state_ok (set_food fd w).
Proof. by intros [? _] ?. Qed.

Lemma next_head_ok s : snake_ok s → ∃ head, next_head s = Ok head ∧ in_bounds head.
Proof.
  intros (Hb & _ & [[dx dy] Hd] & _). unfold next_head, DIRS_at, body_at.
  rewrite Hd. simpl. destruct (body s) as [|[hx hy] b]; [done|]. simpl.
  eexists. split; [done|]. apply mod_in_bounds.
Qed.

Lemma spawn_food_safe r w :
  state_ok w →
  safe (λ '(w', _), state_ok w' ∧ snakes w' = snakes w ∧ same_frame w w') (spawn_food r w).
Proof.
  intros Hok. destruct (spawn_food r w) as [[w' r']|e] eqn:E; simpl.
  - apply spawn_food_spec in E as (c & -> & Hc & _). split_and!; try done.
    apply state_ok_food; [done|]. destruct Hok as [_ Hf].
    intros x [->%elem_of_singleton|?]%elem_of_union; auto.
  - revert E. induction r as [| |zx zy r IH] using rng_pair_ind; simpl; try congruence.
    repeat case_match; try done.
Qed.

Lemma check_food_safe p head r w :
  state_ok w →
  safe (λ '(w', _), state_ok w') (check_food p head r w).
Proof.
  intros Hok. unfold check_food. case_bool_decide; [|done].
  eapply safe_mono; [apply spawn_food_safe|by intros [? ?] (? & _)].
  apply state_ok_update.
  - apply state_ok_food; [done|]. destruct Hok as [_ Hf].
    intros x [? _]%elem_of_difference. auto.
  - intros s _ Hs. apply snake_ok_set_grow; [|done]. destruct Hs as (_ & _ & _ & ?). lia.
Qed.

Lemma body_pop_ok s :
  (1 ≤ length (body s))%nat → body_pop s = Ok (set_body (removelast (body s)) s).
Proof. unfold body_pop. destruct (body s); simpl; [lia|done]. Qed.

Lemma handle_tail_safe p w s :
  state_ok w → snake_of p w = Some s → (2 ≤ length (body s))%nat →
  safe state_ok (handle_tail p w).
Proof.
  intros Hok Hs Hlen. unfold handle_tail. unfold snake_of in Hs. rewrite Hs. simpl.
  pose proof (state_ok_snake _ _ _ Hok Hs) as Hsok.
  case_bool_decide.
  - simpl. apply state_ok_update; [done|]. intros s' Hs' _.
    apply snake_ok_set_grow; [lia|]. by eapply state_ok_snake.
  - rewrite body_pop_ok by lia. simpl.
    apply state_ok_update; [done|]. intros _ _ _. by apply snake_ok_pop.
Qed.

Lemma tick_snake_safe p w r k :
  state_ok w → p ∈ Dict.keys (snakes w) →
  safe (λ st, state_ok st.1.1) (tick_snake p (w, r, k)).
Proof.
  intros Hok [s Hs]%dict_keys_get.
  pose proof (state_ok_snake _ _ _ Hok Hs) as Hsok.
  unfold tick_snake. rewrite Hs. simpl.
  destruct (alive s) eqn:Hal; simpl; [|done].
  destruct (next_head_ok s Hsok) as (head & -> & Hhead). simpl.
  destruct (collision head (snakes w)); simpl.
  { apply state_ok_update; [done|]. intros. by apply snake_ok_set_alive. }
  set (w1 := update_snake p (λ s0, set_body (head :: body s0) s0) w).
  assert (Hok1 : state_ok w1).
  { apply state_ok_update; [done|]. intros. by apply snake_ok_cons. }
  assert (Hs1 : snake_of p w1 = Some (set_body (head :: body s) s)).
  { unfold w1. rewrite snake_of_update, decide_True by done. unfold snake_of. by rewrite Hs. }
  pose proof (check_food_safe p head r w1 Hok1) as Hsafe.
  destruct (check_food p head r w1) as [[w2 r2]|e] eqn:E; simpl in *; [|done].
  pose proof (check_food_snake p p _ _ _ _ _ E) as [_ Hs2].
  rewrite decide_True, Hs1 in Hs2 by done. simpl in Hs2.
  eapply safe_bind; [eapply (handle_tail_safe p w2); [done..|]|by intros].
  destruct Hsok as (Hne & _).
  assert (1 ≤ length (body s))%nat by (destruct (body s); simpl; [done|lia]).
  destruct (bool_decide (head ∈ food w)); simpl; lia.
Qed.

Lemma tick_loop_safe ps w r k :
  state_ok w → ps ⊆ Dict.keys (snakes w) →
  safe (λ st, state_ok st.1.1) (tick_loop ps (w, r, k)).
Proof.
  revert w r k. induction ps as [|p ps IH]; intros w r k Hok Hps; [done|].
  change (tick_loop (p :: ps) (w, r, k)) with (tick_snake p (w, r, k) ≫= tick_loop ps).
  pose proof (tick_snake_safe p w r k Hok) as Hsafe.
  destruct (tick_snake p (w, r, k)) as [[[w1 r1] k1]|e] eqn:E.
  - apply IH; [apply Hsafe; set_solver|].
    apply tick_snake_frame in E as [(-> & _) _]. set_solver.
  - apply Hsafe. set_solver.
Qed.

Lemma game_tick_safe broken r w :
  state_ok w → safe (λ out, state_ok out.1.1) (game_tick broken r w).
Proof.
  intros Hok. unfold game_tick.
  eapply safe_bind; [by apply tick_loop_safe|]. by intros [[w' r'] k'].
Qed.

(** ** The frame *)

Lemma res_bind_Ok {A B} (a : A) (f : A → res B) : Ok a ≫= f = f a.
Proof. done. Qed.

Lemma list_index_ok {A} (l : list A) (i : Z) :
  0 ≤ i < Z.of_nat (length l) → list_index l i = Ok (Z.to_nat i).
Proof. intros. unfold list_index. by rewrite bool_decide_eq_true_2. Qed.

Lemma plot_ok c ch rows :
  grid_ok rows → in_bounds c → ∃ rows', plot c ch rows = Ok rows' ∧ grid_ok rows'.
Proof.
  intros [Hlen Hrows] [Hx Hy]. destruct c as [x y]. simpl in Hx, Hy.
  unfold plot, grid in *.
  rewrite list_index_ok by lia. rewrite res_bind_Ok.
  destruct (lookup_lt_is_Some_2 rows (Z.to_nat y)) as [row Hrow]; [lia|].
  rewrite Hrow. unfold of_option. rewrite res_bind_Ok.
  assert (Hrl : length row = Z.to_nat WIDTH).
  { rewrite Forall_forall in Hrows. apply Hrows. by eapply list_elem_of_lookup_2. }
  rewrite list_index_ok by lia. rewrite res_bind_Ok. eexists. split; [done|]. split.
  - by rewrite length_insert.
  - apply Forall_insert; [done|]. by rewrite length_insert.
Qed.

Lemma blank_ok : grid_ok blank.
Proof.
  split; [apply length_replicate|]. apply Forall_replicate, length_replicate.
Qed.

Lemma draw_food_ok cs rows :
  Forall in_bounds cs → grid_ok rows →
  ∃ rows', draw_food cs rows = Ok rows' ∧ grid_ok rows'.
Proof.
  intros Hcs. revert rows. induction Hcs as [|c cs Hc Hcs IH]; intros rows Hg; simpl.
  - by eauto.
  - destruct (plot_ok c "*" rows Hg Hc) as (rows1 & -> & Hg1). simpl. by apply IH.
Qed.

Lemma draw_body_ok ch i cs rows :
  Forall in_bounds cs → grid_ok rows →
  ∃ rows', draw_body ch i cs rows = Ok rows' ∧ grid_ok rows'.
Proof.
  intros Hcs. revert i rows. induction Hcs as [|c cs Hc Hcs IH]; intros i rows Hg; simpl.
  - by eauto.
  - destruct (plot_ok c (if bool_decide (0 < i)%nat then ch else upper ch) rows Hg Hc)
      as (rows1 & -> & Hg1). simpl. by apply IH.
Qed.

Lemma draw_snakes_ok ss rows :
  Forall snake_ok (Dict.values ss) → grid_ok rows →
  ∃ rows', draw_snakes ss rows = Ok rows' ∧ grid_ok rows'.
Proof.
  revert rows. induction ss as [|[p s] ss IH]; intros rows Hss Hg; simpl.
  - by eauto.
  - apply Forall_cons in Hss as [(_ & Hb & _) Hss]. simpl in Hb.
    destruct (alive s); simpl; [|by apply IH].
    destruct (draw_body_ok (digit_char (p `mod` 10)) 0 (body s) rows Hb Hg)
      as (rows1 & -> & Hg1). simpl. by apply IH.
Qed.

Lemma length_string_of_list_ascii (l : list ascii) :
  String.length (String.string_of_list_ascii l) = length l.
Proof. induction l; simpl; congruence. Qed.

(** Under the invariant a frame is always produced, and it has [HEIGHT]
    rows of [WIDTH] characters. *)
Lemma render_ok w :
  state_ok w →
  ∃ rows, render w = Ok (MsgFrame WIDTH HEIGHT rows) ∧
    length rows = Z.to_nat HEIGHT ∧
    Forall (λ row, String.length row = Z.to_nat WIDTH) rows.
Proof.
  intros [Hs Hf]. unfold render.
  destruct (draw_food_ok (elements (food w)) blank) as (rows1 & -> & Hg1).
  { apply Forall_forall. intros c Hc%elem_of_elements. by apply Hf. }
  { apply blank_ok. }
  simpl. destruct (draw_snakes_ok (snakes w) rows1 Hs Hg1) as (rows2 & -> & Hlen & Hrows).
  simpl. eexists. split; [done|]. split; [by rewrite length_fmap|].
  apply Forall_fmap. eapply Forall_impl; [done|]. simpl.
  intros row Hrow. by rewrite length_string_of_list_ascii.
Qed.

(** ** The broadcast pass *)

(** The pids whose transport fails. *)
Lemma broadcast_pass_spec broken data ws dead :
  broadcast_pass broken data ws dead =
  ((λ kv, transport_write broken kv.2 data) <$> ws,
   dead ++ (List.filter (λ kv, broken kv.2) ws).*1).
Proof.
  revert dead. induction ws as [|[p wr] ws IH]; intros dead; simpl.
  - by rewrite app_nil_r.
  - rewrite IH. f_equal. destruct (broken wr); simpl; [|done].
    by rewrite <- app_assoc.
Qed.

Lemma failing_keys broken (ws : Dict.t Z handle) p :
  NoDup (Dict.keys ws) →
  p ∈ (List.filter (λ kv, broken kv.2) ws).*1 ↔
  ∃ wr, Dict.get p ws = Some wr ∧ broken wr = true.
Proof.
  induction ws as [|[q wr] ws IH]; simpl.
  - intros _. split; [by intros ?%elem_of_nil|by intros (? & ? & _)].
  - intros [Hq Hnd]%NoDup_cons. specialize (IH Hnd).
    destruct (decide (q = p)) as [->|Hne].
    + destruct (broken wr) eqn:Hb; simpl.
      * split; [by eauto|set_solver].
      * rewrite IH. split; [|by intros (? & [= <-] & ?); congruence].
        intros (wr' & Hget & _). by apply dict_get_Some_keys in Hget.
    + destruct (broken wr) eqn:Hb; simpl; [|done].
      rewrite elem_of_cons, IH. naive_solver.
Qed.

Lemma failing_NoDup broken (ws : Dict.t Z handle) :
  NoDup (Dict.keys ws) → NoDup (List.filter (λ kv, broken kv.2) ws).*1.
Proof.
  induction ws as [|[q wr] ws IH]; simpl; [constructor|].
  intros [Hq Hnd]%NoDup_cons. destruct (broken wr); simpl; [|by auto].
  apply NoDup_cons. split; [|by auto].
  intros [wr' [Hget _]]%failing_keys; [|done]. by apply dict_get_Some_keys in Hget.
Qed.

Lemma drop_writers_spec dead (ws : Dict.t Z handle) :
  NoDup (Dict.keys ws) → NoDup dead → dead ⊆ Dict.keys ws →
  ∃ ws', drop_writers dead ws = Ok ws' ∧ NoDup (Dict.keys ws') ∧
    ∀ p, Dict.get p ws' = if decide (p ∈ dead) then None else Dict.get p ws.
Proof.
  revert ws. induction dead as [|q dead IH]; intros ws Hnd Hdead Hsub; simpl.
  - exists ws. split_and!; try done.
  - apply NoDup_cons in Hdead as [Hq Hdead].
    assert (Hmem : Dict.mem q ws = true) by (apply dict_mem_true; set_solver).
    rewrite Hmem.
    destruct (IH (Dict.del q ws)) as (ws' & -> & Hnd' & Hget); [by apply dict_NoDup_del|done| |].
    { intros p Hp. assert (p ≠ q) by congruence.
      assert (is_Some (Dict.get p ws)) as [wr Hwr] by (apply dict_keys_get; set_solver).
      apply (dict_get_Some_keys p wr). rewrite dict_get_del by done.
      by rewrite decide_False. }
    exists ws'. split_and!; try done. intros p. rewrite Hget, dict_get_del by done.
    repeat case_decide; try done; set_solver.
Qed.

Lemma broadcast_frame_spec broken w data :
  NoDup (Dict.keys (writers w)) → render w = Ok data →
  ∃ ws', broadcast_frame broken w =
           Ok (set_writers ws' w, (λ kv, transport_write broken kv.2 data) <$> writers w) ∧
    NoDup (Dict.keys ws') ∧
    ∀ p, Dict.get p ws' =
         Dict.get p (writers w) ≫= λ wr, if broken wr then None else Some wr.
Proof.
  intros Hnd Hr. unfold broadcast_frame. rewrite Hr. simpl.
  rewrite broadcast_pass_spec. simpl.
  destruct (drop_writers_spec (List.filter (λ kv, broken kv.2) (writers w)).*1 (writers w))
    as (ws' & -> & Hnd' & Hget); [done|by apply failing_NoDup| |].
  { intros p [wr [Hget _]]%failing_keys; [|done]. by eapply dict_get_Some_keys. }
  exists ws'. split_and!; try done. intros p. rewrite Hget.
  case_decide as Hp.
  - apply failing_keys in Hp as (wr & -> & Hb); [|done]. simpl. by rewrite Hb.
  - destruct (Dict.get p (writers w)) as [wr|] eqn:E; simpl; [|done].
    destruct (broken wr) eqn:Hb; [|done]. destruct Hp. apply failing_keys; eauto.
Qed.

(** ** Accepting, steering, cleaning up *)

Lemma dicts_ok_frame w w' : same_frame w w' → dicts_ok w → dicts_ok w'.
Proof.
  intros (Hk & Hw & Hn & _) (? & ? & ?). unfold dicts_ok. by rewrite Hk, Hw, Hn.
Qed.

Lemma inv_update p f w :
  inv w →
  (∀ s, snake_of p w = Some s → snake_ok s → snake_ok (f s)) →
  inv (update_snake p f w).
Proof.
  intros [Hd Hs] Hf. split; [|by apply state_ok_update].
  eapply dicts_ok_frame; [apply same_frame_update|done].
Qed.

Lemma random_dir_safe r : safe (λ '(d, _), Dict.mem d DIRS = true) (random_dir r).
Proof.
  destruct r as [|z r]; [done|]. unfold random_dir, randrange.
  rewrite res_bind_Ok. cbv beta iota.
  pose proof (Z.mod_pos_bound z 4).
  assert (Hcases : ∃ n, Z.to_nat (z `mod` 4) = n ∧ (n < 4)%nat) by (eexists; split; [done|lia]).
  destruct Hcases as (n & Hn & Hlt). change (Z.of_nat (length DIRS)) with 4.
  rewrite Hn. by do 4 (destruct n as [|n]; [done|]); lia.
Qed.

Lemma accept_safe reader writer r w :
  inv w → safe (λ '(p, w', _), inv w' ∧ p = next_pid w) (accept reader writer r w).
Proof.
  intros [(Hns & Hnw & Hlt) [Hs Hf]]. unfold accept.
  destruct r as [|zx [|zy r]]; try done. unfold randrange at 1 2.
  rewrite !res_bind_Ok. cbv beta iota.
  pose proof (random_dir_safe r) as Hd.
  destruct (random_dir r) as [[d r']|e]; simpl in *; [|done].
  split; [|done]. split; [split_and!|split]; simpl.
  - by apply dict_NoDup_set.
  - by apply dict_NoDup_set.
  - rewrite dict_keys_set. rewrite Forall_forall in Hlt.
    apply Forall_forall. intros q Hq.
    destruct (Dict.mem (next_pid w) (snakes w)).
    + apply Hlt in Hq. lia.
    + apply elem_of_app in Hq as [Hq%Hlt|Hq%list_elem_of_singleton]; lia.
  - apply Forall_forall. intros s [->|Hin]%dict_values_set.
    + by apply snake_ok_init.
    + rewrite Forall_forall in Hs. by apply Hs.
  - done.
Qed.

Lemma steer_result d s s' :
  steer d s = Ok s' → s' = set_dir d s ∨ s' = s.
Proof.
  unfold steer. case_bool_decide as Hlen; [intros [= <-]; by left|].
  intros Hst. inv_bind Hst. destruct a as [hx hy]. inv_bind Hst. destruct a as [nx ny].
  inv_bind Hst. case_bool_decide as Hv; injection Hst as <-; auto.
Qed.

Lemma apply_cmd_inv p d w w' :
  Dict.mem d DIRS = true → inv w → apply_cmd p d w = Ok w' → inv w'.
Proof.
  intros Hd Hinv. unfold apply_cmd.
  destruct (Dict.get p (snakes w)) as [s|] eqn:Hs; [|by intros [= <-]].
  destruct (alive s); [|by intros [= <-]].
  intros H. inv_bind H. injection H as <-.
  apply inv_update; [done|]. intros s0 Hs0 Hok.
  assert (s0 = s) as -> by (unfold snake_of in Hs0; congruence).
  apply steer_result in Ha as [->| ->]; [by apply snake_ok_set_dir|done].
Qed.

Lemma handle_line_inv p l w w' : inv w → handle_line p l w = Ok w' → inv w'.
Proof.
  intros Hinv. destruct l as [|msg]; simpl; [by intros [= <-]|].
  intros H. inv_bind H. destruct (json_is_str a "cmd"); [|by injection H as <-].
  inv_bind H. inv_bind H. destruct a1 as [d|]; [|by injection H as <-].
  eapply apply_cmd_inv; [|done..].
  destruct a0; simpl in Ha1; try done. injection Ha1 as Ha1.
  by destruct (Dict.mem s DIRS) eqn:E; simplify_eq.
Qed.

Lemma cleanup_inv p w : inv w → inv (cleanup p w).
Proof.
  intros Hinv. unfold cleanup.
  set (w1 := if Dict.mem p (snakes w) then update_snake p (set_alive false) w else w).
  assert (Hinv1 : inv w1).
  { unfold w1. destruct (Dict.mem p (snakes w)); [|done].
    apply inv_update; [done|]. intros. by apply snake_ok_set_alive. }
  destruct (Dict.mem p (writers w1)); [|done].
  destruct Hinv1 as [(? & ? & ?) ?]. split; [split_and!|]; try done.
  simpl. by apply dict_NoDup_del.
Qed.

Lemma session_step_inv p i w : inv w → inv (session_step p i w).1.
Proof.
  intros Hinv. destruct i as [|l]; simpl; [by apply cleanup_inv|].
  destruct (handle_line p l w) eqn:E; simpl; [by eapply handle_line_inv|by apply cleanup_inv].
Qed.

Lemma game_tick_frame broken r w w' r' evs :
  game_tick broken r w = Ok (w', r', evs) → same_frame w w'.
Proof. intros (kills & H & _)%game_tick_inv. by apply tick_loop_frame in H as [? _]. Qed.

Lemma game_tick_inv_safe broken r w :
  inv w → safe (λ out, inv out.1.1) (game_tick broken r w).
Proof.
  intros [Hd Hs]. pose proof (game_tick_safe broken r w Hs) as Hsafe.
  destruct (game_tick broken r w) as [[[w' r'] evs]|e] eqn:E; simpl in *; [|done].
  split; [|done]. eapply dicts_ok_frame; [|done]. by eapply game_tick_frame.
Qed.

Lemma broadcast_frame_inv_safe broken w :
  inv w → ∃ w' evs, broadcast_frame broken w = Ok (w', evs) ∧ inv w'.
Proof.
  intros [(Hns & Hnw & Hlt) Hs].
  destruct (render_ok w Hs) as (rows & Hr & _).
  destruct (broadcast_frame_spec broken w _ Hnw Hr) as (ws' & -> & Hnd' & _).
  eexists _, _. split; [done|]. by split; [split_and!|].
Qed.

Lemma exec_inv o w r :
  inv w → safe (λ out, inv out.1.1) (exec o (w, r)).
Proof.
  intros Hinv. destruct o as [reader writer|p i|broken|broken]; simpl.
  - eapply safe_bind; [by apply accept_safe|]. by intros [[p w'] r'] [? _].
  - by apply session_step_inv.
  - by apply game_tick_inv_safe.
  - destruct (broadcast_frame_inv_safe broken w Hinv) as (w' & evs & -> & ?). done.
Qed.

Lemma spawn_foods_inv n r w : inv w → safe (λ st, inv st.1) (spawn_foods n r w).
Proof.
  revert r w. induction n as [|n IH]; intros r w Hinv; simpl; [done|].
  eapply safe_bind; [apply spawn_food_safe, Hinv|].
  intros [w' r'] (Hs & _ & Hf). apply IH. split; [|done].
  eapply dicts_ok_frame; [done|apply Hinv].
Qed.

Lemma Server_init_inv : inv Server_init.
Proof.
  split; [split_and!|split]; simpl; [constructor..|].
  intros c Hc. by apply not_elem_of_empty in Hc.
Qed.

Lemma run_inv os w r : inv w → safe (λ st, inv st.1) (run os (w, r)).
Proof.
  revert w r. induction os as [|o os IH]; intros w r Hinv; [done|].
  change (run (o :: os) (w, r)) with
    (exec o (w, r) ≫= λ '(w', r', _), run os (w', r')).
  eapply safe_bind; [by apply exec_inv|]. intros [[w' r'] evs] ?. by apply IH.
Qed.

(** C10: the state invariant (non-empty bodies of cells of the grid, food inside the
    grid, facings that are keys of [DIRS], pending growth at least 0,
    together with what makes the dictionaries dictionaries) holds after
    [start] and is kept by every operation on the shared state; an
    operation that starts from it raises no [IndexError] and no [KeyError]:
    it returns, or its food search is still running when the draws end. *)
Theorem C10_state_invariant :
  (∀ r, match start r with Ok (w, _) => inv w | Raise e => e = Exhausted end) ∧
  (∀ o w r, inv w →
     match exec o (w, r) with Ok (w', _, _) => inv w' | Raise e => e = Exhausted end) ∧
  (∀ os w r, inv w →
     match run os (w, r) with Ok (w', _) => inv w' | Raise e => e = Exhausted end).
Proof.
  split_and!.
  - intros r. pose proof (spawn_foods_inv 10 r Server_init Server_init_inv) as H.
    unfold start. by destruct (spawn_foods 10 r Server_init) as [[w r']|e].
  - intros o w r Hinv. pose proof (exec_inv o w r Hinv) as H.
    by destruct (exec o (w, r)) as [[[w' r'] evs]|e].
  - intros os w r Hinv. pose proof (run_inv os w r Hinv) as H.
    by destruct (run os (w, r)) as [[w' r']|e].
Qed.

Lemma ex_meal_inv : inv ex_meal.
Proof.
  split; [split_and!|split]; simpl.
  - apply NoDup_singleton.
  - apply NoDup_singleton.
  - by repeat constructor.
  - constructor; [|constructor].
    split_and!; simpl; [done|by repeat constructor|by eexists|done].
  - intros c ->%elem_of_singleton. by repeat split.
Qed.

Lemma C10_state_invariant_witness :
  inv ex_meal ∧
  match exec (OpTick no_faults) (ex_meal, [0; 0]) with
  | Ok (w', _, _) => inv w'
  | Raise e => e = Exhausted
  end.
Proof.
  split; [apply ex_meal_inv|].
  apply (proj1 (proj2 C10_state_invariant) (OpTick no_faults) ex_meal [0; 0] ex_meal_inv).
Defined.

(** C9: in a broadcast, the frame is written to every transport registered when the
    pass begins, the same data to each, in the order of the registration
    map, whatever the earlier writes did; the pids whose write failed are
    collected during the pass and unregistered after it: in the state that
    results, the writers map holds exactly the transports whose write went
    through, under the pids they had; the snakes, the food, the pid counter
    and the readers' map are as they were. *)
Theorem C9_broadcast_pass (broken : faults) (w : Server) :
  inv w →
  ∃ data w',
    render w = Ok data ∧
    broadcast_pass broken data (writers w) [] =
      ((λ kv, transport_write broken kv.2 data) <$> writers w,
       (List.filter (λ kv, broken kv.2) (writers w)).*1) ∧
    broadcast_frame broken w =
      Ok (w', (λ kv, transport_write broken kv.2 data) <$> writers w) ∧
    (∀ p, Dict.get p (writers w') =
          Dict.get p (writers w) ≫= λ wr, if broken wr then None else Some wr) ∧
    NoDup (Dict.keys (writers w')) ∧
    snakes w' = snakes w ∧
    food w' = food w ∧
    next_pid w' = next_pid w ∧
    players w' = players w.
Proof.
  intros [(Hns & Hnw & Hlt) Hs].
  destruct (render_ok w Hs) as (rows & Hr & _).
  destruct (broadcast_frame_spec broken w _ Hnw Hr) as (ws' & Hb & Hnd & Hget).
  eexists _, (set_writers ws' w). split_and!; try done. apply broadcast_pass_spec.
Qed.

Lemma C9_broadcast_pass_witness :
  ∃ data w',
    render ex_meal = Ok data ∧
    broadcast_pass (λ wr, bool_decide (wr = 20%nat)) data (writers ex_meal) [] =
      ((λ kv, transport_write (λ wr, bool_decide (wr = 20%nat)) kv.2 data) <$> writers ex_meal,
       (List.filter (λ kv, bool_decide (kv.2 = 20%nat)) (writers ex_meal)).*1) ∧
    broadcast_frame (λ wr, bool_decide (wr = 20%nat)) ex_meal =
      Ok (w', (λ kv, transport_write (λ wr, bool_decide (wr = 20%nat)) kv.2 data)
                <$> writers ex_meal) ∧
    (∀ p, Dict.get p (writers w') =
          Dict.get p (writers ex_meal) ≫= λ wr, if bool_decide (wr = 20%nat) then None else Some wr) ∧
    NoDup (Dict.keys (writers w')) ∧
    snakes w' = snakes ex_meal ∧
    food w' = food ex_meal ∧
    next_pid w' = next_pid ex_meal ∧
    players w' = players ex_meal.
Proof.
  exact (C9_broadcast_pass (λ wr, bool_decide (wr = 20%nat)) ex_meal ex_meal_inv).
Defined.

(** * Dead snakes *)

Lemma set_alive_dead s : alive s = false → set_alive false s = s.
Proof. destruct s. simpl. by intros ->. Qed.

Lemma cleanup_dead_stays p q w s :
  snake_of q w = Some s → alive s = false → snake_of q (cleanup p w) = Some s.
Proof.
  intros Hs Hd. unfold cleanup.
  set (w1 := if Dict.mem p (snakes w) then update_snake p (set_alive false) w else w).
  assert (Hs1 : snake_of q w1 = Some s).
  { unfold w1. destruct (Dict.mem p (snakes w)); [|done].
    rewrite snake_of_update. case_decide; [|done]. rewrite Hs. simpl.
    by rewrite set_alive_dead. }
  by destruct (Dict.mem p (writers w1)).
Qed.

Lemma apply_cmd_dead_stays p d q w w' s :
  apply_cmd p d w = Ok w' →
  snake_of q w = Some s → alive s = false → snake_of q w' = Some s.
Proof.
  unfold apply_cmd. intros H Hs Hd.
  destruct (Dict.get p (snakes w)) as [sp|] eqn:Hp; [|by injection H as <-].
  destruct (alive sp) eqn:Hal; [|by injection H as <-].
  inv_bind H. injection H as <-. rewrite snake_of_update.
  case_decide; [|done]. subst q. unfold snake_of in Hs. congruence.
Qed.

Lemma handle_line_dead_stays p l q w w' s :
  handle_line p l w = Ok w' →
  snake_of q w = Some s → alive s = false → snake_of q w' = Some s.
Proof.
  destruct l as [|msg]; simpl; [by intros [= <-]|].
  intros H. inv_bind H. destruct (json_is_str a "cmd"); [|by injection H as <-].
  inv_bind H. inv_bind H. destruct a1 as [d|]; [|by injection H as <-].
  by eapply apply_cmd_dead_stays.
Qed.

Lemma exec_dead_stays o w r w' r' evs p s :
  inv w → exec o (w, r) = Ok (w', r', evs) →
  snake_of p w = Some s → alive s = false → snake_of p w' = Some s.
Proof.
  intros [(_ & _ & Hlt) _] H Hs Hd.
  destruct o as [reader writer|q i|broken|broken]; simpl in H.
  - inv_bind H. destruct a as [[q w1] r1]. injection H as <- <- <-.
    unfold accept in Ha. inv_bind Ha. destruct a as [x r1'].
    inv_bind Ha. destruct a as [y r2]. inv_bind Ha. destruct a as [d r3].
    injection Ha as <- <- <-. unfold snake_of. simpl.
    rewrite dict_get_set, decide_False; [done|].
    rewrite Forall_forall in Hlt. apply snake_of_keys, Hlt in Hs. lia.
  - injection H as <- <- <-. unfold session_step.
    destruct i as [|l]; [by apply cleanup_dead_stays|].
    destruct (handle_line q l w) eqn:E; cbn [fst];
      [by eapply handle_line_dead_stays|by apply cleanup_dead_stays].
  - apply game_tick_inv in H as (kills & H & _). by eapply tick_loop_dead_stays.
  - inv_bind H. destruct a as [w1 evs1]. injection H as <- <- <-.
    unfold broadcast_frame in Ha. inv_bind Ha.
    destruct (broadcast_pass broken a (writers w) []) as [evs0 dead].
    inv_bind Ha. by injection Ha as <- <-.
Qed.

Lemma run_dead_stays os w r w' r' p s :
  inv w → run os (w, r) = Ok (w', r') →
  snake_of p w = Some s → alive s = false → snake_of p w' = Some s.
Proof.
  revert w r. induction os as [|o os IH]; intros w r Hinv H Hs Hd.
  - by injection H as <- <-.
  - change (run (o :: os) (w, r)) with
      (exec o (w, r) ≫= λ '(w', r', _), run os (w', r')) in H.
    inv_bind H. destruct a as [[w1 r1] evs1].
    pose proof (exec_inv o w r Hinv) as Hinv1. rewrite Ha in Hinv1.
    eapply IH; [exact Hinv1|done| |done].
    by apply (exec_dead_stays o w r w1 r1 evs1).
Qed.

Lemma collision_del_dead head p s (ss : Dict.t Z Snake) :
  Dict.get p ss = Some s → alive s = false →
  collision head (Dict.del p ss) = collision head ss.
Proof.
  unfold collision. induction ss as [|[q sq] ss IH]; simpl; [done|].
  case_decide.
  - intros [= ->] ->. done.
  - intros Hs Hd. simpl. by rewrite IH.
Qed.

Lemma draw_snakes_del_dead p s (ss : Dict.t Z Snake) rows :
  Dict.get p ss = Some s → alive s = false →
  draw_snakes (Dict.del p ss) rows = draw_snakes ss rows.
Proof.
  revert rows. induction ss as [|[q sq] ss IH]; intros rows; simpl; [done|].
  case_decide.
  - intros [= ->] ->. done.
  - intros Hs Hd. simpl. destruct (alive sq); simpl; [|by apply IH].
    destruct (draw_body _ _ _ _); simpl; [by apply IH|done].
Qed.

Lemma render_del_dead p s w :
  snake_of p w = Some s → alive s = false →
  render (set_snakes (Dict.del p (snakes w)) w) = render w.
Proof.
  intros Hs Hd. unfold render. simpl.
  destruct (draw_food _ _); simpl; [|done].
  by rewrite (draw_snakes_del_dead p s).
Qed.

(** [spawn_food] stays off every snake, dead or alive. *)
Lemma spawn_food_off_snakes r w w' r' c s :
  spawn_food r w = Ok (w', r') →
  s ∈ Dict.values (snakes w) → c ∈ body s → c ∈ food w' → c ∈ food w.
Proof.
  intros (c' & -> & _ & _ & Hoff & _)%spawn_food_spec Hs Hc. simpl.
  intros [->%elem_of_singleton|?]%elem_of_union; [|done].
  assert (on_any_snake c' (snakes w) = true) by (apply on_any_snake_true; eauto).
  congruence.
Qed.

(** C6: on [ex_corpse] the cell (0,0) holds no food and lies on no alive snake, only on
    the dead snake 1.  The collision scan of the physics step does not count
    it, but the occupancy scan of [spawn_food], which runs over all the
    snakes of the map with no test of the alive flag, does: the draw (0,0) is
    passed over and the food goes to (1,1), while with the dead snake taken
    out of the map the same draws put the food on (0,0). *)
Theorem C6_spawn_food_counts_dead_snake :
  snake_of 1 ex_corpse = Some (mkSnake 1 [(0, 0)] "R" 0 false) ∧
  food ex_corpse = ∅ ∧
  collision (0, 0) (snakes ex_corpse) = false ∧
  on_any_snake (0, 0) (snakes ex_corpse) = true ∧
  spawn_food [0; 0; 1; 1] ex_corpse =
    Ok (mkServer [] [(2, 21%nat)]
          [(1, mkSnake 1 [(0, 0)] "R" 0 false); (2, mkSnake 2 [(7, 7)] "D" 0 true)] 3
          {[ (1, 1) ]}, []) ∧
  spawn_food [0; 0; 1; 1]
      (mkServer [] [(2, 21%nat)] [(2, mkSnake 2 [(7, 7)] "D" 0 true)] 3 ∅) =
    Ok (mkServer [] [(2, 21%nat)] [(2, mkSnake 2 [(7, 7)] "D" 0 true)] 3 {[ (0, 0) ]},
        [1; 1]).
Proof. repeat split. Qed.

(** X21: once a snake is dead, no operation changes it again: its alive flag stays false
    and it stays in the snake dictionary as it is; the collision scan of the
    physics step and the frame are what they would be without it. *)
Theorem X21_dead_snake_is_inert (p : Z) (s : Snake) (w : Server) :
  inv w → snake_of p w = Some s → alive s = false →
  (∀ os r w' r', run os (w, r) = Ok (w', r') →
     snake_of p w' = Some s ∧ is_alive p w' = false) ∧
  (∀ head, collision head (snakes w) = collision head (Dict.del p (snakes w))) ∧
  render w = render (mkServer (players w) (writers w) (Dict.del p (snakes w))
                       (next_pid w) (food w)).
Proof.
  intros Hinv Hs Hd. split_and!.
  - intros os r w' r' H. assert (Hs' : snake_of p w' = Some s) by by eapply run_dead_stays.
    split; [done|]. unfold is_alive. by rewrite Hs'.
  - intros head. symmetry. by eapply collision_del_dead.
  - symmetry. by eapply (render_del_dead p s w).
Qed.

Lemma ex_corpse_inv : inv ex_corpse.
Proof.
  split; [split_and!|split]; simpl.
  - compute_done.
  - apply NoDup_singleton.
  - by repeat constructor.
  - constructor; [|constructor; [|constructor]];
      (split_and!; simpl; [done|by repeat constructor|by eexists|done]).
  - intros c Hc. by apply not_elem_of_empty in Hc.
Qed.

Lemma X21_dead_snake_is_inert_witness :
  (∀ os r w' r', run os (ex_corpse, r) = Ok (w', r') →
     snake_of 1 w' = Some (mkSnake 1 [(0, 0)] "R" 0 false) ∧ is_alive 1 w' = false) ∧
  (∀ head, collision head (snakes ex_corpse) = collision head (Dict.del 1 (snakes ex_corpse))) ∧
  render ex_corpse =
    render (mkServer [] [(2, 21%nat)] [(2, mkSnake 2 [(7, 7)] "D" 0 true)] 3 ∅).
Proof.
  exact (X21_dead_snake_is_inert 1 (mkSnake 1 [(0, 0)] "R" 0 false) ex_corpse
           ex_corpse_inv eq_refl eq_refl).
Defined.

(** * Growth *)


(** A snake that is alive before and after a step has moved, and [eats]
    tells whether it found food. *)
Lemma game_tick_survivor broken p w r w' r' evs s :
  NoDup (Dict.keys (snakes w)) →
  snake_of p w = Some s → alive s = true →
  game_tick broken r w = Ok (w', r', evs) → is_alive p w' = true →
  ∃ head, next_head s = Ok head ∧ snake_of p w' = Some (moved (eats p r w) head s).
Proof.
  intros Hnd Hs Hal (kills & H & _)%game_tick_inv Hlive.
  destruct (tick_loop_alive _ _ _ _ _ _ _ Hnd Hs Hal H)
    as (wm & rm & km & head & Hat & Hsm & Hh & _ & _ & Hp').
  exists head. split; [done|]. unfold eats. rewrite Hat, Hsm, Hh, Hal.
  unfold is_alive in Hlive. rewrite Hp' in *.
  destruct (collision head (snakes wm)); simpl in *; [congruence|done].
Qed.

Lemma length_removelast {A} (l : list A) : length (removelast l) = pred (length l).
Proof.
  induction l as [|x [|y l] IH]; [done..|].
  change (removelast (x :: y :: l)) with (x :: removelast (y :: l)).
  cbn [length] in *. by rewrite IH.
Qed.







(** * Further properties of the engine *)

(** ** Movement *)

(** X1: the grid is a torus.  From a head inside the grid each direction leads to the
    neighbouring cell, and at an edge to the cell at the opposite edge;
    there is no wall. *)
Theorem X1_next_head_wraps (s : Snake) (hx hy : Z) (rest : list pos) :
  body s = (hx, hy) :: rest → in_bounds (hx, hy) →
  (dir s = "U" →
     next_head s = Ok (hx, if bool_decide (hy = 0) then HEIGHT - 1 else hy - 1)) ∧
  (dir s = "D" →
     next_head s = Ok (hx, if bool_decide (hy = HEIGHT - 1) then 0 else hy + 1)) ∧
  (dir s = "L" →
     next_head s = Ok (if bool_decide (hx = 0) then WIDTH - 1 else hx - 1, hy)) ∧
  (dir s = "R" →
     next_head s = Ok (if bool_decide (hx = WIDTH - 1) then 0 else hx + 1, hy)).
Proof.
  intros Hb [Hx Hy]. simpl in Hx, Hy. unfold WIDTH, HEIGHT in *.
  assert (Hx0 : (hx + 0) `mod` 30 = hx) by (rewrite Z.add_0_r; by apply Z.mod_small).
  assert (Hy0 : (hy + 0) `mod` 15 = hy) by (rewrite Z.add_0_r; by apply Z.mod_small).
  split_and!; intros Hd; unfold next_head, DIRS_at, body_at; rewrite Hd, Hb; simpl;
    unfold WIDTH, HEIGHT; do 2 f_equal; try done.
  - case_bool_decide as E; [by subst hy|]. apply Z.mod_small. lia.
  - case_bool_decide as E; [by subst hy|]. apply Z.mod_small. lia.
  - case_bool_decide as E; [by subst hx|]. apply Z.mod_small. lia.
  - case_bool_decide as E; [by subst hx|]. apply Z.mod_small. lia.
Qed.

Lemma X1_next_head_wraps_witness :
  next_head (mkSnake 1 [(29, 0)] "R" 0 true) = Ok (0, 0) ∧
  next_head (mkSnake 1 [(29, 0)] "U" 0 true) = Ok (29, 14).
Proof.
  split.
  - apply (proj2 (proj2 (proj2 (X1_next_head_wraps (mkSnake 1 [(29, 0)] "R" 0 true)
      29 0 [] eq_refl ltac:(by compute)))) eq_refl).
  - apply (proj1 (X1_next_head_wraps (mkSnake 1 [(29, 0)] "U" 0 true)
      29 0 [] eq_refl ltac:(by compute)) eq_refl).
Defined.

(** X2: a snake that is alive before a physics step and dead after it has not moved:
    the step changed its alive flag and nothing else. *)
Theorem X2_death_leaves_body (broken : faults) (p : Z) (w : Server) (r : rng)
    (w' : Server) (r' : rng) (evs : list io_event) (s : Snake) :
  NoDup (Dict.keys (snakes w)) →
  snake_of p w = Some s → alive s = true →
  game_tick broken r w = Ok (w', r', evs) → is_alive p w' = false →
  snake_of p w' = Some (mkSnake (pid s) (body s) (dir s) (grow s) false).
Proof.
  intros Hnd Hs Hal (kills & H & _)%game_tick_inv Hdead.
  destruct (tick_loop_alive _ _ _ _ _ _ _ Hnd Hs Hal H)
    as (wm & rm & km & head & _ & _ & _ & _ & _ & Hp').
  unfold is_alive in Hdead. rewrite Hp' in *.
  destruct (collision head (snakes wm)); [done|].
  rewrite moved_alive in Hdead. congruence.
Qed.

Lemma X2_death_leaves_body_witness :
  snake_of 2
    (mkServer [] [(1, 20%nat); (2, 21%nat)]
       [(1, mkSnake 1 [(4, 5)] "R" 0 true); (2, mkSnake 2 [(5, 5)] "L" 0 false)] 3 ∅)
  = Some (mkSnake 2 [(5, 5)] "L" 0 false).
Proof.
  apply (X2_death_leaves_body no_faults 2 ex_facing [] _ [] [Sent 21%nat (MsgDead 2)]
           (mkSnake 2 [(5, 5)] "L" 0 true));
    try reflexivity.
  compute_done.
Defined.

(** X3: a snake that survives a physics step without finding food has advanced by one
    cell: with growth pending the new head is put in front of the whole old
    body and the counter goes down by one; with none pending the last
    segment is dropped and the length stays what it was.  Its facing is
    not touched. *)
Theorem X3_survivor_advances (broken : faults) (p : Z) (w : Server) (r : rng)
    (w' : Server) (r' : rng) (evs : list io_event) (s : Snake) :
  NoDup (Dict.keys (snakes w)) →
  snake_of p w = Some s → alive s = true → body s ≠ [] →
  game_tick broken r w = Ok (w', r', evs) → is_alive p w' = true →
  eats p r w = false →
  ∃ head s', next_head s = Ok head ∧ snake_of p w' = Some s' ∧
    dir s' = dir s ∧ alive s' = true ∧
    (0 < grow s → body s' = head :: body s ∧ grow s' = grow s - 1) ∧
    (grow s ≤ 0 → body s' = head :: removelast (body s) ∧ grow s' = grow s ∧
                  length (body s') = length (body s)).
Proof.
  intros Hnd Hs Hal Hne Htick Hlive Heat.
  destruct (game_tick_survivor _ _ _ _ _ _ _ _ Hnd Hs Hal Htick Hlive) as (head & Hh & Hs').
  rewrite Heat in Hs'. exists head, (moved false head s).
  split_and!; try done.
  - apply moved_dir.
  - by rewrite moved_alive.
  - intros Hg. unfold moved. cbv zeta. by rewrite bool_decide_eq_true_2.
  - intros Hg. unfold moved. cbv zeta. rewrite bool_decide_eq_false_2 by lia.
    cbn [body grow]. destruct (body s) as [|c b] eqn:Eb; [done|].
    split_and!; try done.
    change (removelast (head :: c :: b)) with (head :: removelast (c :: b)).
    cbn [length]. by rewrite length_removelast.
Qed.

Lemma X3_survivor_advances_witness :
  ∃ head s', next_head (mkSnake 1 [(3, 5)] "R" 0 true) = Ok head ∧
    snake_of 1
      (mkServer [] [(1, 20%nat); (2, 21%nat)]
         [(1, mkSnake 1 [(4, 5)] "R" 0 true); (2, mkSnake 2 [(5, 5)] "L" 0 false)] 3 ∅)
      = Some s' ∧
    dir s' = "R"%string ∧ alive s' = true ∧
    (0 < 0 → body s' = head :: [(3, 5)] ∧ grow s' = 0 - 1) ∧
    (0 ≤ 0 → body s' = head :: removelast [(3, 5)] ∧ grow s' = 0 ∧
             length (body s') = length [(3, 5)]).
Proof.
  apply (X3_survivor_advances no_faults 1 ex_facing [] _ [] [Sent 21%nat (MsgDead 2)]
    (mkSnake 1 [(3, 5)] "R" 0 true)); try reflexivity; try done.
  compute_done.
Defined.

(** ** Commands *)

(** X4: an object that is no command (its type is not "cmd"), or a command whose
    direction is missing or is a null, a boolean, a number or a string other
    than the four keys, is skipped: the server state is unchanged and the
    session goes on reading. *)
Theorem X4_invalid_command_skipped (p : Z) (kv : list (string * json)) (w : Server) :
  json_is_str (default JNull (Dict.get "type"%string kv)) "cmd" = false ∨
  match default JNull (Dict.get "dir"%string kv) with
  | JStr d => d ∉ Dict.keys DIRS
  | JArr _ | JObj _ => False
  | JNull | JBool _ | JNum _ => True
  end →
  session_step p (Line (Parsed (JObj kv))) w = (w, Reading).
Proof.
  intros [Ht|Hd]; unfold session_step, handle_line; simpl.
  - by rewrite Ht.
  - destruct (json_is_str _ _); [|done].
    destruct (default JNull (Dict.get "dir"%string kv)) as [| | |d| |]; simpl; try done.
    assert (Dict.mem d DIRS = false) as ->; [|done].
    destruct (Dict.mem d DIRS) eqn:E; [|done]. by apply dict_mem_true in E.
Qed.

Lemma X4_invalid_command_skipped_witness :
  session_step 1 (Line (Parsed (JObj [("type", JStr "cmd"); ("dir", JStr "up")]%string)))
    ex_two_long = (ex_two_long, Reading).
Proof.
  apply X4_invalid_command_skipped. right. simpl. compute_done.
Defined.

(** X5: a well-formed command for a pid whose snake is dead, or that has no snake,
    changes nothing. *)
Theorem X5_command_for_dead_snake (p : Z) (d : string) (msg : json) (w : Server) :
  msg_get msg "type" = Ok (JStr "cmd") →
  msg_get msg "dir" = Ok (JStr d) →
  d ∈ Dict.keys DIRS →
  is_alive p w = false →
  session_step p (Line (Parsed msg)) w = (w, Reading).
Proof.
  intros Ht Hd [v Hv]%dict_keys_get Hdead. unfold session_step.
  rewrite (handle_line_cmd _ _ _ _ _ Ht Hd Hv). unfold apply_cmd.
  unfold is_alive, snake_of in Hdead.
  destruct (Dict.get p (snakes w)) as [s|]; [|done]. by rewrite Hdead.
Qed.

Lemma X5_command_for_dead_snake_witness :
  session_step 1 (Line (Parsed (JObj [("type", JStr "cmd"); ("dir", JStr "U")]%string)))
    ex_corpse = (ex_corpse, Reading).
Proof.
  apply (X5_command_for_dead_snake 1 "U"); try reflexivity. compute_done.
Defined.

(** What handling a line can change. *)
Lemma handle_line_effect (p : Z) (l : parsed) (w w' : Server) :
  handle_line p l w = Ok w' →
  food w' = food w ∧ same_frame w w' ∧
  (∀ q, q ≠ p → snake_of q w' = snake_of q w) ∧
  ∃ f, snake_of p w' = f <$> snake_of p w ∧
    ∀ s, body (f s) = body s ∧ grow (f s) = grow s ∧ alive (f s) = alive s ∧
         pid (f s) = pid s ∧ (dir (f s) = dir s ∨ dir (f s) ∈ Dict.keys DIRS).
Proof.
  assert (Hid : ∀ w, food w = food w ∧ same_frame w w ∧
    (∀ q, q ≠ p → snake_of q w = snake_of q w) ∧
    ∃ f, snake_of p w = f <$> snake_of p w ∧
      ∀ s, body (f s) = body s ∧ grow (f s) = grow s ∧ alive (f s) = alive s ∧
           pid (f s) = pid s ∧ (dir (f s) = dir s ∨ dir (f s) ∈ Dict.keys DIRS)).
  { intros w0. split_and!; try done. exists id. split; [by destruct (snake_of p w0)|].
    intros s. split_and!; auto. }
  destruct l as [|msg]; simpl; [intros [= <-]; apply Hid|].
  intros H. inv_bind H. destruct (json_is_str a "cmd"); [|injection H as <-; apply Hid].
  inv_bind H. inv_bind H. destruct a1 as [d|]; [|injection H as <-; apply Hid].
  assert (Hd : d ∈ Dict.keys DIRS).
  { destruct a0; simpl in Ha1; try done. injection Ha1 as Ha1.
    destruct (Dict.mem s DIRS) eqn:E; simplify_eq. by apply dict_mem_true. }
  unfold apply_cmd in H.
  destruct (Dict.get p (snakes w)) as [s|] eqn:Hs; [|injection H as <-; apply Hid].
  destruct (alive s); [|injection H as <-; apply Hid].
  inv_bind H. injection H as <-. split_and!.
  - done.
  - apply same_frame_update.
  - intros q Hq. by rewrite snake_of_update, decide_False.
  - apply steer_result in Ha2 as [->| ->].
    + exists (set_dir d). split.
      * rewrite snake_of_update, decide_True by done. unfold snake_of. by rewrite Hs.
      * intros s0. split_and!; auto.
    + exists id. split.
      * rewrite snake_of_update, decide_True by done. unfold snake_of. by rewrite Hs.
      * intros s0. split_and!; auto.
Qed.


(** X6: a line that is handled without an exception changes at most the facing of the
    snake of the session that sent it: the other snakes, the body, the
    pending growth and the alive flag of its own snake, the food, the
    registrations and the pid counter are as they were, and the new facing
    is a key of [DIRS] or the old one. *)
Theorem X6_command_only_steers (p : Z) (l : parsed) (w w' : Server) :
  handle_line p l w = Ok w' →
  food w' = food w ∧ same_frame w w' ∧
  (∀ q, q ≠ p → snake_of q w' = snake_of q w) ∧
  ∃ f, snake_of p w' = f <$> snake_of p w ∧
    ∀ s, body (f s) = body s ∧ grow (f s) = grow s ∧ alive (f s) = alive s ∧
         pid (f s) = pid s ∧ (dir (f s) = dir s ∨ dir (f s) ∈ Dict.keys DIRS).
Proof. apply handle_line_effect. Qed.

Lemma X6_command_only_steers_witness :
  food (update_snake 1 (set_dir "U") ex_two_long) = food ex_two_long ∧
  same_frame ex_two_long (update_snake 1 (set_dir "U") ex_two_long) ∧
  (∀ q, q ≠ 1 → snake_of q (update_snake 1 (set_dir "U") ex_two_long) = snake_of q ex_two_long) ∧
  ∃ f, snake_of 1 (update_snake 1 (set_dir "U") ex_two_long) = f <$> snake_of 1 ex_two_long ∧
    ∀ s, body (f s) = body s ∧ grow (f s) = grow s ∧ alive (f s) = alive s ∧
         pid (f s) = pid s ∧ (dir (f s) = dir s ∨ dir (f s) ∈ Dict.keys DIRS).
Proof.
  apply (X6_command_only_steers 1
    (Parsed (JObj [("type", JStr "cmd"); ("dir", JStr "U")]%string))).
  reflexivity.
Defined.

(** X7: when head and neck are more than one cell apart on an axis, as they are right
    after the snake has crossed an edge of the board, the difference
    [body[0] - body[1]] is the vector of no direction and every command is
    accepted, the reversal into the neck included. *)
Theorem X7_no_command_refused_after_wrap (d : string) (s : Snake) (hx hy nx ny : Z)
    (rest : list pos) :
  body s = (hx, hy) :: (nx, ny) :: rest →
  d ∈ Dict.keys DIRS →
  1 < Z.abs (hx - nx) ∨ 1 < Z.abs (hy - ny) →
  steer d s = Ok (mkSnake (pid s) (body s) d (grow s) (alive s)).
Proof.
  intros Hb [v Hv]%dict_keys_get Hfar.
  rewrite (steer_long _ _ _ _ _ _ _ _ Hb Hv).
  rewrite bool_decide_eq_true_2; [done|].
  apply DIRS_cases in Hv. intros Heq.
  destruct Hv as [[_ ->]|[[_ ->]|[[_ ->]| [_ ->]]]]; injection Heq as ? ?; lia.
Qed.

Lemma X7_no_command_refused_after_wrap_witness :
  steer "L" (mkSnake 1 [(0, 5); (29, 5)] "R" 1 true)
  = Ok (mkSnake 1 [(0, 5); (29, 5)] "L" 1 true).
Proof.
  apply (X7_no_command_refused_after_wrap "L" (mkSnake 1 [(0, 5); (29, 5)] "R" 1 true)
           0 5 29 5 []); [reflexivity|compute_done|].
  left. vm_compute. reflexivity.
Defined.

(** ** Connections *)

Lemma dict_set_fresh {K V} `{EqDecision K} (k : K) (v : V) (d : Dict.t K V) :
  k ∉ Dict.keys d → Dict.set k v d = d ++ [(k, v)].
Proof.
  induction d as [|[k' v'] d IH]; simpl; [done|].
  intros Hk. case_decide; [set_solver|]. f_equal. apply IH. set_solver.
Qed.

Lemma dict_del_absent {K V} `{EqDecision K} (k : K) (d : Dict.t K V) :
  k ∉ Dict.keys d → Dict.del k d = d.
Proof.
  induction d as [|[k' v'] d IH]; simpl; [done|].
  intros Hk. case_decide; [set_solver|]. f_equal. apply IH. set_solver.
Qed.

Lemma dict_alter_twice {K V} `{EqDecision K} (f : V → V) (k : K) (d : Dict.t K V) :
  (∀ v, f (f v) = f v) → Dict.alter f k (Dict.alter f k d) = Dict.alter f k d.
Proof.
  intros Hf. induction d as [|[k' v'] d IH]; simpl; [done|].
  case_decide; simpl; rewrite ?decide_True, ?decide_False by done; [by rewrite Hf|].
  by rewrite IH.
Qed.

Lemma update_snake_twice p f w :
  (∀ s, f (f s) = f s) → update_snake p f (update_snake p f w) = update_snake p f w.
Proof. intros Hf. unfold update_snake, set_snakes. simpl. by rewrite dict_alter_twice. Qed.

Lemma dict_alter_absent {K V} `{EqDecision K} (f : V → V) (k : K) (d : Dict.t K V) :
  k ∉ Dict.keys d → Dict.alter f k d = d.
Proof.
  induction d as [|[k' v'] d IH]; simpl; [done|].
  intros Hk. case_decide; [set_solver|]. f_equal. apply IH. set_solver.
Qed.

(** The [finally] block in one piece. *)
Lemma cleanup_eq p w :
  cleanup p w =
  mkServer (players w) (Dict.del p (writers w))
    (Dict.alter (set_alive false) p (snakes w)) (next_pid w) (food w).
Proof.
  unfold cleanup.
  assert (Hs : (if Dict.mem p (snakes w) then update_snake p (set_alive false) w else w)
               = update_snake p (set_alive false) w).
  { destruct (Dict.mem p (snakes w)) eqn:E; [done|].
    unfold update_snake. rewrite dict_alter_absent; [by destruct w|].
    intros Hin. apply dict_mem_true in Hin. congruence. }
  rewrite Hs. change (writers (update_snake p (set_alive false) w)) with (writers w).
  destruct (Dict.mem p (writers w)) eqn:E; [done|].
  rewrite dict_del_absent; [done|].
  intros Hin. apply dict_mem_true in Hin. congruence.
Qed.

(** X8: accepting a connection hands out the current value of the pid counter and
    moves the counter on by one; the new snake has length 1, no pending
    growth, is alive, lies on the drawn cell whatever is on that cell, and
    comes last in the order of the snakes; the writer is registered under
    the new pid; the snakes already there and the food are not touched. *)
Theorem X8_accept_registers (reader writer : handle) (zx zy zd : Z) (r : rng) (w : Server) :
  inv w →
  ∃ d, Dict.keys DIRS !! Z.to_nat (zd `mod` 4) = Some d ∧
    accept reader writer (zx :: zy :: zd :: r) w =
      Ok (next_pid w,
          mkServer (Dict.set reader (next_pid w) (players w))
            (Dict.set (next_pid w) writer (writers w))
            (snakes w ++
               [(next_pid w,
                 mkSnake (next_pid w) [(zx `mod` WIDTH, zy `mod` HEIGHT)] d 0 true)])
            (next_pid w + 1) (food w),
          r).
Proof.
  intros [(_ & _ & Hlt) _].
  pose proof (Z.mod_pos_bound zd 4).
  assert (Hcases : ∃ n, Z.to_nat (zd `mod` 4) = n ∧ (n < 4)%nat) by (eexists; split; [done|lia]).
  destruct Hcases as (n & Hn & Hlt4).
  assert (Hd : ∃ d, Dict.keys DIRS !! n = Some d).
  { do 4 (destruct n as [|n]; [eexists; reflexivity|]). lia. }
  destruct Hd as [d Hd]. exists d. rewrite Hn. split; [done|].
  unfold accept, randrange, random_dir, randrange. rewrite !res_bind_Ok. cbv beta iota.
  change (Z.of_nat (length DIRS)) with 4. rewrite Hn, Hd. simpl.
  rewrite (dict_set_fresh (next_pid w) _ (snakes w)); [done|].
  intros Hin. rewrite Forall_forall in Hlt. apply Hlt in Hin. lia.
Qed.

Lemma X8_accept_registers_witness :
  ∃ d, Dict.keys DIRS !! Z.to_nat (6 `mod` 4) = Some d ∧
    accept 11%nat 21%nat [33; 20; 6; 7] ex_meal =
      Ok (next_pid ex_meal,
          mkServer (Dict.set 11%nat (next_pid ex_meal) (players ex_meal))
            (Dict.set (next_pid ex_meal) 21%nat (writers ex_meal))
            (snakes ex_meal ++
               [(next_pid ex_meal,
                 mkSnake (next_pid ex_meal) [(33 `mod` WIDTH, 20 `mod` HEIGHT)] d 0 true)])
            (next_pid ex_meal + 1) (food ex_meal),
          [7]).
Proof. exact (X8_accept_registers 11%nat 21%nat 33 20 6 [7] ex_meal ex_meal_inv). Defined.

(** X9: when a session ends, its snake (if it has one) is marked dead and is otherwise
    left as it is, its writer is unregistered, and nothing else changes;
    running the cleanup again changes nothing more. *)
Theorem X9_disconnect_cleanup (p : Z) (w : Server) :
  NoDup (Dict.keys (writers w)) →
  session_step p Eof w = (cleanup p w, Ended) ∧
  snake_of p (cleanup p w) =
    (λ s, mkSnake (pid s) (body s) (dir s) (grow s) false) <$> snake_of p w ∧
  Dict.get p (writers (cleanup p w)) = None ∧
  (∀ q, q ≠ p → snake_of q (cleanup p w) = snake_of q w ∧
                Dict.get q (writers (cleanup p w)) = Dict.get q (writers w)) ∧
  food (cleanup p w) = food w ∧ next_pid (cleanup p w) = next_pid w ∧
  Dict.keys (snakes (cleanup p w)) = Dict.keys (snakes w) ∧
  cleanup p (cleanup p w) = cleanup p w.
Proof.
  intros Hnd. rewrite cleanup_eq. unfold snake_of. simpl. split_and!.
  - by rewrite <- cleanup_eq.
  - apply dict_get_alter_eq.
  - rewrite dict_get_del by done. by rewrite decide_True.
  - intros q Hq. split.
    + by apply dict_get_alter_ne.
    + rewrite dict_get_del by done. by rewrite decide_False.
  - done.
  - done.
  - apply dict_keys_alter.
  - rewrite cleanup_eq. simpl. f_equal.
    + apply dict_del_absent. intros Hin.
      apply dict_keys_get in Hin as [wr Hwr].
      rewrite dict_get_del, decide_True in Hwr by done. done.
    + by apply dict_alter_twice.
Qed.

Lemma X9_disconnect_cleanup_witness :
  snake_of 1 (cleanup 1 ex_two_long) = Some (mkSnake 1 [(5, 5); (4, 5)] "R" 0 false) ∧
  Dict.get 1 (writers (cleanup 1 ex_two_long)) = None ∧
  cleanup 1 (cleanup 1 ex_two_long) = cleanup 1 ex_two_long.
Proof.
  destruct (X9_disconnect_cleanup 1 ex_two_long) as (_ & H1 & H2 & _ & _ & _ & _ & H3).
  - apply NoDup_singleton.
  - by split_and!.
Defined.

(** ** The broadcast *)

Lemma filter_no_faults (ws : Dict.t Z handle) :
  List.filter (λ kv, no_faults kv.2) ws = [].
Proof. by induction ws. Qed.

Lemma set_writers_id (w : Server) : set_writers (writers w) w = w.
Proof. by destruct w. Qed.

(** X10: a broadcast in which no write fails changes nothing in the server state, and
    sends the one frame to every registered transport. *)
Theorem X10_broadcast_without_faults (w : Server) :
  state_ok w →
  ∃ data, render w = Ok data ∧
    broadcast_frame no_faults w = Ok (w, (λ kv, Sent kv.2 data) <$> writers w).
Proof.
  intros Hok. destruct (render_ok w Hok) as (rows & Hr & _).
  eexists. split; [done|]. unfold broadcast_frame. rewrite Hr, res_bind_Ok.
  rewrite broadcast_pass_spec, filter_no_faults. simpl. by rewrite set_writers_id.
Qed.

Lemma X10_broadcast_without_faults_witness :
  ∃ data, render ex_meal = Ok data ∧
    broadcast_frame no_faults ex_meal = Ok (ex_meal, (λ kv, Sent kv.2 data) <$> writers ex_meal).
Proof. exact (X10_broadcast_without_faults ex_meal (proj2 ex_meal_inv)). Defined.

(** X11: under the state invariant a frame is always produced; it announces the
    dimensions of the board and has exactly [HEIGHT] rows of exactly
    [WIDTH] characters, whatever the snakes and the food. *)
Theorem X11_frame_shape (w : Server) :
  state_ok w →
  ∃ rows, render w = Ok (MsgFrame 30 15 rows) ∧
    length rows = 15%nat ∧ Forall (λ row, String.length row = 30%nat) rows.
Proof. apply render_ok. Qed.

Lemma X11_frame_shape_witness :
  ∃ rows, render ex_facing = Ok (MsgFrame 30 15 rows) ∧
    length rows = 15%nat ∧ Forall (λ row, String.length row = 30%nat) rows.
Proof.
  apply X11_frame_shape. split; simpl.
  - constructor; [|constructor; [|constructor]];
      (split_and!; simpl; [done|by repeat constructor|by eexists|done]).
  - intros c Hc. by apply not_elem_of_empty in Hc.
Defined.

(** X12: the character of a snake is the last decimal digit of its pid, and upper-casing
    a digit gives the digit back: the head of a snake is drawn exactly like
    the rest of its body. *)
Theorem X12_head_drawn_like_body (p : Z) :
  upper (digit_char (p `mod` 10)) = digit_char (p `mod` 10) ∧
  ∀ i j cs rows,
    draw_body (digit_char (p `mod` 10)) i cs rows =
    draw_body (digit_char (p `mod` 10)) j cs rows.
Proof.
  assert (Hup : upper (digit_char (p `mod` 10)) = digit_char (p `mod` 10)).
  { pose proof (Z.mod_pos_bound p 10).
    assert (Hcases : ∃ n, Z.to_nat (p `mod` 10) = n ∧ (n < 10)%nat)
      by (eexists; split; [done|lia]).
    destruct Hcases as (n & Hn & Hlt). unfold digit_char. rewrite Hn.
    do 10 (destruct n as [|n]; [done|]). lia. }
  split; [done|]. intros i j cs. revert i j.
  induction cs as [|c cs IH]; intros i j rows; [done|]. simpl. rewrite Hup.
  assert ((if bool_decide (0 < i)%nat then digit_char (p `mod` 10) else digit_char (p `mod` 10))
          = digit_char (p `mod` 10)) as -> by (by destruct (bool_decide _)).
  assert ((if bool_decide (0 < j)%nat then digit_char (p `mod` 10) else digit_char (p `mod` 10))
          = digit_char (p `mod` 10)) as -> by (by destruct (bool_decide _)).
  destruct (plot c _ rows); simpl; [apply IH|done].
Qed.

(** ** Food *)

Lemma spawn_food_skip zx zy r w :
  ¬ free_cell w (cell_of (zx, zy)) → spawn_food (zx :: zy :: r) w = spawn_food r w.
Proof.
  intros Hn. simpl. destruct (on_any_snake _ _) eqn:Hs; [done|].
  case_bool_decide as Hf; [done|]. destruct Hn. by split.
Qed.

Lemma spawn_food_take zx zy r w :
  free_cell w (cell_of (zx, zy)) →
  spawn_food (zx :: zy :: r) w = Ok (set_food ({[cell_of (zx, zy)]} ∪ food w) w, r).
Proof.
  intros [Hs Hf]. unfold cell_of in *. simpl in *. rewrite Hs.
  by rewrite bool_decide_eq_false_2.
Qed.

(** X13: [spawn_food] is a rejection search over the pairs of draws: pairs whose cell
    lies on a snake or holds food are passed over, the first pair whose
    cell is free decides, and the draws after it are left unused; as long
    as no free cell has been drawn the search has not returned. *)
Theorem X13_spawn_food_first_free (pre : list (Z * Z)) (w : Server) :
  Forall (λ z, ¬ free_cell w (cell_of z)) pre →
  spawn_food (draws_for pre) w = Raise Exhausted ∧
  (∀ z, spawn_food (draws_for pre ++ [z]) w = Raise Exhausted) ∧
  (∀ z r, free_cell w (cell_of z) →
     spawn_food (draws_for pre ++ z.1 :: z.2 :: r) w =
       Ok (mkServer (players w) (writers w) (snakes w) (next_pid w)
             ({[cell_of z]} ∪ food w), r)).
Proof.
  induction 1 as [|[zx zy] pre Hz Hpre (IH1 & IH2 & IH3)].
  - split_and!; [done|done|]. intros [zx zy] r Hfree. by apply spawn_food_take.
  - unfold draws_for in *. cbn [flat_map fst snd app]. split_and!.
    + by rewrite spawn_food_skip.
    + intros z. by rewrite spawn_food_skip.
    + intros z r Hfree. rewrite spawn_food_skip by done. by apply IH3.
Qed.

Lemma X13_spawn_food_first_free_witness :
  spawn_food (draws_for [(0, 0); (30, 15)]) ex_corpse = Raise Exhausted ∧
  spawn_food (draws_for [(0, 0); (30, 15)] ++ 31 :: 16 :: [5]) ex_corpse =
    Ok (mkServer [] [(2, 21%nat)]
          [(1, mkSnake 1 [(0, 0)] "R" 0 false); (2, mkSnake 2 [(7, 7)] "D" 0 true)] 3
          ({[ (1, 1) ]} ∪ ∅), [5]).
Proof.
  destruct (X13_spawn_food_first_free [(0, 0); (30, 15)] ex_corpse) as (H1 & _ & H3).
  - repeat constructor; intros [Hs _]; by vm_compute in Hs.
  - split; [exact H1|]. apply (H3 (31, 16) [5]). split; [reflexivity|].
    intros Hin. by apply not_elem_of_empty in Hin.
Defined.

Lemma spawn_food_size r w w' r' :
  spawn_food r w = Ok (w', r') → size (food w') = S (size (food w)).
Proof.
  intros (c & -> & _ & Hc & _)%spawn_food_spec. simpl.
  rewrite size_union by set_solver. by rewrite size_singleton.
Qed.

Lemma check_food_size p head r w w' r' :
  check_food p head r w = Ok (w', r') → size (food w') = size (food w).
Proof.
  destruct (decide (head ∈ food w)) as [Hin|Hnin].
  - intros (c & -> & _ & Hc & _)%check_food_hit; [|done]. simpl.
    rewrite size_union by set_solver.
    rewrite size_singleton, size_difference by set_solver.
    rewrite size_singleton.
    assert (size (food w) ≠ 0%nat); [|lia].
    intros Hz%size_empty_inv. set_solver.
  - rewrite check_food_miss by done. by intros [= <- <-].
Qed.

Lemma tick_snake_food_size p w r k w' r' k' :
  tick_snake p (w, r, k) = Ok (w', r', k') → size (food w') = size (food w).
Proof.
  unfold tick_snake. intros H. inv_bind H. destruct (alive a); simpl in H.
  - inv_bind H. destruct (collision a0 (snakes w)).
    + by injection H as <- <- <-.
    + inv_bind H. destruct a1 as [w2 r2]. inv_bind H. injection H as <- <- <-.
      apply check_food_size in Ha1. apply (handle_tail_snake p p) in Ha2 as (_ & -> & _).
      by rewrite Ha1.
  - by injection H as <- <- <-.
Qed.

Lemma tick_loop_food_size ps w r k w' r' k' :
  tick_loop ps (w, r, k) = Ok (w', r', k') → size (food w') = size (food w).
Proof.
  revert w r k. induction ps as [|p ps IH]; intros w r k; simpl.
  - by intros [= <- <- <-].
  - intros H. inv_bind H. destruct a as [[w1 r1] k1].
    apply tick_snake_food_size in Ha. apply IH in H. congruence.
Qed.

Lemma exec_food_size o w r w' r' evs :
  exec o (w, r) = Ok (w', r', evs) → size (food w') = size (food w).
Proof.
  destruct o as [reader writer|p i|broken|broken]; simpl; intros H.
  - inv_bind H. destruct a as [[q w1] r1]. injection H as <- <- <-.
    unfold accept in Ha. inv_bind Ha. destruct a as [x r1'].
    inv_bind Ha. destruct a as [y r2]. inv_bind Ha. destruct a as [d r3].
    by injection Ha as <- <- <-.
  - injection H as <- <- <-. unfold session_step.
    destruct i as [|l]; cbn [fst]; [by rewrite cleanup_eq|].
    destruct (handle_line p l w) eqn:E; cbn [fst]; [|by rewrite cleanup_eq].
    by apply handle_line_effect in E as [-> _].
  - apply game_tick_inv in H as (kills & H & _). by eapply tick_loop_food_size.
  - inv_bind H. destruct a as [w1 evs1]. injection H as <- <- <-.
    unfold broadcast_frame in Ha. inv_bind Ha.
    destruct (broadcast_pass broken a (writers w) []) as [evs0 dead].
    inv_bind Ha. by injection Ha as <- <-.
Qed.

Lemma run_food_size os w r w' r' :
  run os (w, r) = Ok (w', r') → size (food w') = size (food w).
Proof.
  revert w r. induction os as [|o os IH]; intros w r H.
  - by injection H as <- <-.
  - change (run (o :: os) (w, r)) with
      (exec o (w, r) ≫= λ '(w', r', _), run os (w', r')) in H.
    inv_bind H. destruct a as [[w1 r1] evs1].
    apply exec_food_size in Ha. apply IH in H. congruence.
Qed.

Lemma spawn_foods_spec n r w w' r' :
  spawn_foods n r w = Ok (w', r') →
  size (food w') = (size (food w) + n)%nat ∧ snakes w' = snakes w ∧ same_frame w w'.
Proof.
  revert r w. induction n as [|n IH]; intros r w; simpl.
  - intros [= <- <-]. split_and!; [lia|done..].
  - intros H. inv_bind H. destruct a as [w1 r1].
    pose proof (spawn_food_size _ _ _ _ Ha) as Hsz.
    apply spawn_food_spec in Ha as (c & -> & _).
    apply IH in H as (-> & -> & Hf). simpl in *. split_and!; [lia|done..].
Qed.

(** X14: the number of food items never changes once the server runs: an eaten item
    is replaced within the same loop iteration, and nothing else adds or
    removes food.  [start] puts 10 items on the board, so every state the
    server reaches holds exactly 10. *)
Theorem X14_food_count (r0 : rng) (w0 : Server) (r1 : rng) (os : list op)
    (w : Server) (r : rng) :
  start r0 = Ok (w0, r1) → run os (w0, r1) = Ok (w, r) →
  size (food w0) = 10%nat ∧ snakes w0 = [] ∧ writers w0 = [] ∧ next_pid w0 = 1 ∧
  size (food w) = 10%nat.
Proof.
  intros (Hsz & Hs & (_ & Hw & Hn & _))%spawn_foods_spec Hrun.
  apply run_food_size in Hrun.
  assert (Hz : size (food Server_init) = 0%nat) by apply size_empty.
  rewrite Hz in Hsz. split_and!; [done..|lia].
Qed.

Lemma X14_food_count_witness :
  ∃ w0 w,
    size (food w0) = 10%nat ∧ snakes w0 = [] ∧ writers w0 = [] ∧ next_pid w0 = 1 ∧
    size (food w) = 10%nat ∧ length (snakes w) = 1%nat.
Proof.
  pose (r0 := draws_for [(0, 0); (1, 0); (2, 0); (3, 0); (4, 0); (5, 0); (6, 0);
                         (7, 0); (8, 0); (9, 0)] ++ [8; 0; 3; 5; 5]).
  destruct (start r0) as [[w0 r1]|] eqn:Hstart; [|by vm_compute in Hstart].
  destruct (run [OpAccept 10%nat 20%nat; OpTick no_faults; OpBroadcast no_faults] (w0, r1))
    as [[w r]|] eqn:Hrun.
  - exists w0, w.
    destruct (X14_food_count r0 w0 r1 _ w r Hstart Hrun) as (? & ? & ? & ? & ?).
    split_and!; try done.
    vm_compute in Hstart. injection Hstart as <- <-.
    vm_compute in Hrun. by injection Hrun as <- <-.
  - vm_compute in Hstart. injection Hstart as <- <-. by vm_compute in Hrun.
Defined.

(** X15: one pass through the locked section: the physics step comes first and the
    frame that is broadcast shows the state after it; the death notices of
    the step are written before the frame; the frame goes to every
    transport that was registered before the step, those of the snakes that
    have just died included. *)
Theorem X15_frame_follows_step (broken : faults) (r : rng) (w w2 : Server) (r2 : rng)
    (evs : list io_event) :
  inv w → tick_section broken r w = Ok (w2, r2, evs) →
  ∃ w1 notices data,
    game_tick broken r w = Ok (w1, r2, notices) ∧ render w1 = Ok data ∧
    evs = notices ++ ((λ kv, transport_write broken kv.2 data) <$> writers w) ∧
    snakes w2 = snakes w1 ∧ food w2 = food w1 ∧ inv w2.
Proof.
  intros Hinv H. unfold tick_section in H. inv_bind H. destruct a as [[w1 r1] notices].
  inv_bind H. destruct a as [w2' frames]. injection H as <- <- <-.
  pose proof (game_tick_inv_safe broken r w Hinv) as Hinv1. rewrite Ha in Hinv1.
  simpl in Hinv1.
  pose proof (game_tick_frame _ _ _ _ _ _ Ha) as (_ & Hw & _).
  destruct (render_ok w1 (proj2 Hinv1)) as (rows & Hr & _).
  destruct (broadcast_frame_spec broken w1 _ (proj1 (proj2 (proj1 Hinv1))) Hr)
    as (ws' & Hb & _ & _).
  pose proof (exec_inv (OpBroadcast broken) w1 r1 Hinv1) as Hinv2.
  simpl in Hinv2. rewrite Ha0 in Hinv2. simpl in Hinv2.
  rewrite Hb in Ha0. injection Ha0 as <- <-.
  eexists w1, notices, _. rewrite <- Hw. by split_and!.
Qed.

Lemma X15_frame_follows_step_witness :
  ∃ w2 r2 evs, tick_section no_faults [0; 0] ex_meal = Ok (w2, r2, evs) ∧
  ∃ w1 notices data,
    game_tick no_faults [0; 0] ex_meal = Ok (w1, r2, notices) ∧ render w1 = Ok data ∧
    evs = notices ++ ((λ kv, transport_write no_faults kv.2 data) <$> writers ex_meal) ∧
    snakes w2 = snakes w1 ∧ food w2 = food w1 ∧ inv w2.
Proof.
  destruct (tick_section no_faults [0; 0] ex_meal) as [[[w2 r2] evs]|] eqn:H;
    [|by vm_compute in H].
  exists w2, r2, evs. split; [done|].
  exact (X15_frame_follows_step no_faults [0; 0] ex_meal w2 r2 evs ex_meal_inv H).
Defined.

(** ** The physics step returns *)

Lemma cell_of_in_bounds c : in_bounds c → cell_of c = c.
Proof.
  destruct c as [x y]. intros [Hx Hy]. unfold cell_of. simpl in *.
  by rewrite !Z.mod_small.
Qed.

Lemma elem_of_removelast {A} (x : A) (l : list A) : x ∈ removelast l → x ∈ l.
Proof.
  induction l as [|y [|z l] IH]; [done|by intros ?%elem_of_nil|].
  change (removelast (y :: z :: l)) with (y :: removelast (z :: l)).
  intros [->|?]%elem_of_cons; [by left|right; by apply IH].
Qed.

Lemma moved_body ate head s c : c ∈ body (moved ate head s) → c = head ∨ c ∈ body s.
Proof.
  unfold moved. cbv zeta. case_bool_decide; cbn [body].
  - by intros ?%elem_of_cons.
  - by intros ?%elem_of_removelast%elem_of_cons.
Qed.

Lemma handle_tail_returns p w s :
  snake_of p w = Some s → (1 ≤ length (body s))%nat → is_Ok (handle_tail p w).
Proof.
  intros Hs Hlen. unfold handle_tail. unfold snake_of in Hs. rewrite Hs. simpl.
  case_bool_decide; [by eexists|]. rewrite body_pop_ok by done. by eexists.
Qed.

(** The loop body for a snake that moves, in two steps. *)
Lemma tick_snake_moving p w r k s head :
  snake_of p w = Some s → alive s = true → next_head s = Ok head →
  collision head (snakes w) = false →
  tick_snake p (w, r, k) =
    '(w2, r2) ← check_food p head r (update_snake p (λ s, set_body (head :: body s) s) w);
    w3 ← handle_tail p w2; Ok (w3, r2, k).
Proof.
  unfold snake_of, tick_snake. intros Hs Ha Hn Hc.
  rewrite Hs. simpl. rewrite Ha. simpl. rewrite Hn. simpl. by rewrite Hc.
Qed.

Lemma ready_tail ps w c cs : ready ps w (c :: cs) → ready ps w cs.
Proof. intros H c' Hc'. apply H. by right. Qed.

Lemma ready_fewer p ps w cs : ready (p :: ps) w cs → ready ps w cs.
Proof.
  intros H c Hc. destruct (H c Hc) as (? & ? & Hn). split_and!; try done.
  intros q s Hq. apply Hn. by right.
Qed.

(** One turn of the loop keeps the loop going. *)
Lemma tick_snake_returns p ps w c0 cs r k :
  inv w → p ∈ Dict.keys (snakes w) → p ∉ ps →
  NoDup (c0 :: cs) → Forall in_bounds (c0 :: cs) → ready (p :: ps) w (c0 :: cs) →
  ∃ w1 cs1 k1,
    tick_snake p (w, draws_for (c0 :: cs) ++ r, k) = Ok (w1, draws_for cs1 ++ r, k1) ∧
    (cs1 = c0 :: cs ∨ cs1 = cs) ∧ inv w1 ∧
    Dict.keys (snakes w1) = Dict.keys (snakes w) ∧ ready ps w1 cs1.
Proof.
  intros Hinv Hp Hps Hnd Hin Hready.
  destruct (dict_keys_get _ _ Hp) as [s Hs]. fold (snake_of p w) in Hs.
  pose proof (state_ok_snake _ _ _ (proj2 Hinv) Hs) as Hsok.
  (* what every outcome needs: the state after the turn is as required *)
  assert (Hpost : ∀ w1 r1 k1 cs1,
    tick_snake p (w, draws_for (c0 :: cs) ++ r, k) = Ok (w1, r1, k1) →
    (∀ c, c ∈ cs1 → c ∈ c0 :: cs) → (∀ c, c ∈ cs1 → c ∉ food w1) →
    inv w1 ∧ Dict.keys (snakes w1) = Dict.keys (snakes w) ∧ ready ps w1 cs1).
  { intros w1 r1 k1 cs1 Hstep Hsub Hfood.
    pose proof (tick_snake_frame _ _ _ _ _ _ _ Hstep) as [Hfr Hothers].
    pose proof (safe_Ok _ _ _ (tick_snake_safe p w _ k (proj2 Hinv) Hp) Hstep) as Hok1.
    simpl in Hok1.
    assert (Hinv1 : inv w1) by (split; [by eapply dicts_ok_frame; [|apply Hinv]|done]).
    split_and!; [done|apply Hfr|].
    intros c Hc. destruct (Hready c (Hsub c Hc)) as (_ & Hbodies & Hheads).
    split_and!; [by apply Hfood| |].
    - intros s1 Hs1 Hcb.
      apply dict_values_get in Hs1 as [q Hq]; [|apply Hinv1].
      fold (snake_of q w1) in Hq.
      destruct (decide (q = p)) as [->|Hne].
      + apply tick_snake_inv in Hstep as (s' & Hs' & Hcases).
        assert (s' = s) as -> by congruence.
        destruct Hcases as [(_ & -> & _)|(_ & head & Hh & Hc')].
        * apply (Hbodies s); [by eapply snake_of_values|]. congruence.
        * destruct (collision head (snakes w)).
          -- destruct Hc' as (-> & _ & _).
             rewrite snake_of_update, decide_True, Hs in Hq by done.
             injection Hq as <-. apply (Hbodies s); [by eapply snake_of_values|done].
          -- destruct Hc' as [_ Hm]. rewrite Hm in Hq. injection Hq as <-.
             apply moved_body in Hcb as [->|Hcb].
             ++ apply (Hheads p s); [by left|done|done].
             ++ apply (Hbodies s); [by eapply snake_of_values|done].
      + rewrite Hothers in Hq by done. apply (Hbodies s1); [by eapply snake_of_values|done].
    - intros q s1 Hq Hq1. fold (snake_of q w1) in Hq1.
      rewrite Hothers in Hq1 by set_solver.
      apply (Hheads q s1); [by right|done]. }
  assert (Hfood0 : ∀ c, c ∈ c0 :: cs → c ∉ food w) by (intros c Hc; by apply Hready).
  destruct (alive s) eqn:Hal.
  2:{ exists w, (c0 :: cs), k. pose proof (tick_snake_dead _ _ (draws_for (c0 :: cs) ++ r) k _ Hs Hal) as Hstep.
      destruct (Hpost _ _ _ (c0 :: cs) Hstep) as (? & ? & ?); [done|done|].
      split_and!; try done. by left. }
  destruct (next_head_ok s Hsok) as (head & Hh & Hhb).
  destruct (collision head (snakes w)) eqn:Hcol.
  { pose proof (tick_snake_crash _ _ (draws_for (c0 :: cs) ++ r) k _ _ Hs Hal Hh Hcol) as Hstep.
    exists (update_snake p (set_alive false) w), (c0 :: cs), (k ++ [p]).
    destruct (Hpost _ _ _ (c0 :: cs) Hstep) as (? & ? & ?); [done|done|].
    split_and!; try done. by left. }
  pose proof (tick_snake_moving _ _ (draws_for (c0 :: cs) ++ r) k _ _ Hs Hal Hh Hcol) as Hstep.
  set (w1 := update_snake p (λ s0, set_body (head :: body s0) s0) w) in *.
  assert (Hs1 : snake_of p w1 = Some (set_body (head :: body s) s)).
  { unfold w1. by rewrite snake_of_update, decide_True, Hs. }
  destruct (decide (head ∈ food w)) as [Heat|Hmiss].
  - (* food under the new head: the first cell of the supply is taken *)
    set (w2 := update_snake p (λ s0, set_grow (grow s0 + 3) s0)
                 (set_food (food w1 ∖ {[head]}) w1)).
    assert (Hfree : free_cell w2 (cell_of (c0.1, c0.2))).
    { replace (c0.1, c0.2) with c0 by (by destruct c0).
      rewrite cell_of_in_bounds by (by apply Forall_cons in Hin as [? _]).
      destruct (Hready c0) as (Hf & Hbodies & Hheads); [by left|].
      split; [|simpl; set_solver].
      destruct (on_any_snake c0 (snakes w2)) eqn:E; [|done].
      apply on_any_snake_true in E as (s2 & Hs2 & Hcb). exfalso.
      unfold w2, w1, update_snake in Hs2. simpl in Hs2.
      apply dict_values_alter in Hs2 as [Hs2|(s3 & Hs3 & ->)].
      - apply dict_values_alter in Hs2 as [Hs2|(s3 & Hs3 & ->)].
        + by apply (Hbodies s2).
        + simpl in Hcb. apply elem_of_cons in Hcb as [->|Hcb].
          * apply (Hheads p s3); [by left|done|]. unfold snake_of in Hs. congruence.
          * apply (Hbodies s3); [by eapply dict_get_Some_values|done].
      - rewrite dict_get_alter_eq in Hs3. unfold snake_of in Hs. rewrite Hs in Hs3.
        injection Hs3 as <-. simpl in Hcb. apply elem_of_cons in Hcb as [->|Hcb].
        + by apply (Hheads p s); [left| |].
        + apply (Hbodies s); [by eapply dict_get_Some_values|done]. }
    assert (Hcf : check_food p head (draws_for (c0 :: cs) ++ r) w1 =
                  Ok (set_food ({[cell_of (c0.1, c0.2)]} ∪ food w2) w2, draws_for cs ++ r)).
    { unfold check_food. rewrite bool_decide_eq_true_2 by done.
      fold w2. unfold draws_for. cbn [flat_map app]. by apply spawn_food_take. }
    rewrite Hcf, res_bind_Ok in Hstep. cbv beta iota in Hstep.
    set (w3 := set_food ({[cell_of (c0.1, c0.2)]} ∪ food w2) w2) in *.
    destruct (handle_tail_returns p w3 (set_grow (grow s + 3) (set_body (head :: body s) s)))
      as [w4 Hw4].
    { change (snake_of p w3) with (snake_of p w2).
      unfold w2. rewrite snake_of_update, decide_True by done.
      change (snake_of p (set_food (food w1 ∖ {[head]}) w1)) with (snake_of p w1).
      by rewrite Hs1. }
    { simpl. lia. }
    rewrite Hw4, res_bind_Ok in Hstep.
    exists w4, cs, k.
    destruct (Hpost _ _ _ cs Hstep) as (? & ? & ?).
    { intros c Hc. by right. }
    { intros c Hc. apply (handle_tail_snake p p) in Hw4 as (_ & -> & _).
      unfold w3, w2. simpl.
      replace (c0.1, c0.2) with c0 by (by destruct c0).
      rewrite cell_of_in_bounds by (by apply Forall_cons in Hin as [? _]).
      apply NoDup_cons in Hnd as [Hc0 _].
      assert (c ∉ food w) by (apply Hfood0; by right).
      set_solver. }
    split_and!; try done. by right.
  - (* no food: the supply is not touched *)
    rewrite check_food_miss, res_bind_Ok in Hstep by done. cbv beta iota in Hstep.
    destruct (handle_tail_returns p w1 (set_body (head :: body s) s)) as [w4 Hw4];
      [done|simpl; lia|].
    rewrite Hw4, res_bind_Ok in Hstep.
    exists w4, (c0 :: cs), k.
    destruct (Hpost _ _ _ (c0 :: cs) Hstep) as (? & ? & ?); [done| |].
    { intros c Hc. apply (handle_tail_snake p p) in Hw4 as (_ & -> & _).
      by apply Hfood0. }
    split_and!; try done. by left.
Qed.

Lemma tick_loop_returns ps w cs r k :
  inv w → NoDup ps → ps ⊆ Dict.keys (snakes w) →
  NoDup cs → Forall in_bounds cs → (length ps ≤ length cs)%nat → ready ps w cs →
  is_Ok (tick_loop ps (w, draws_for cs ++ r, k)).
Proof.
  revert w cs k. induction ps as [|p ps IH]; intros w cs k Hinv Hps Hsub Hnd Hin Hlen Hready.
  - by eexists.
  - destruct cs as [|c0 cs]; [simpl in Hlen; lia|].
    apply NoDup_cons in Hps as [Hp Hps].
    destruct (tick_snake_returns p ps w c0 cs r k) as (w1 & cs1 & k1 & Hstep & Hcs1 & Hinv1 & Hk & Hr1);
      try done; [set_solver|].
    change (tick_loop (p :: ps) (w, draws_for (c0 :: cs) ++ r, k)) with
      (tick_snake p (w, draws_for (c0 :: cs) ++ r, k) ≫= tick_loop ps).
    rewrite Hstep, res_bind_Ok. apply IH; try done.
    + rewrite Hk. set_solver.
    + destruct Hcs1 as [-> | ->]; [done|]. by apply NoDup_cons in Hnd as [_ ?].
    + destruct Hcs1 as [-> | ->]; [done|]. by apply Forall_cons in Hin as [_ ?].
    + destruct Hcs1 as [-> | ->]; simpl in *; lia.
Qed.

(** X16: the physics step returns whenever the random supply begins with enough cells
    that are free and stay free: pairwise distinct cells of the grid, as
    many as there are snakes, none holding food, none on a snake, none the
    cell a snake is about to enter.  The step then raises nothing and the
    state it leaves satisfies the invariant. *)
Theorem X16_game_tick_returns (broken : faults) (cs : list pos) (r : rng) (w : Server) :
  inv w → NoDup cs → Forall in_bounds cs → Forall (clear w) cs →
  (length (snakes w) ≤ length cs)%nat →
  ∃ w' r' evs, game_tick broken (draws_for cs ++ r) w = Ok (w', r', evs) ∧ inv w'.
Proof.
  intros Hinv Hnd Hin Hclear Hlen.
  destruct (tick_loop_returns (Dict.keys (snakes w)) w cs r []) as [[[w' r'] kills] Hloop];
    try done.
  - apply Hinv.
  - unfold Dict.keys. by rewrite length_fmap.
  - intros c Hc. rewrite Forall_forall in Hclear. destruct (Hclear c Hc) as [Hf Hs].
    split_and!; [done|intros s Hs'; by apply Hs|].
    intros q s _ Hq. apply Hs. by eapply dict_get_Some_values.
  - exists w', r', (notify_dead broken kills w'). split; [by apply game_tick_loop|].
    pose proof (game_tick_inv_safe broken (draws_for cs ++ r) w Hinv) as Hsafe.
    by rewrite (game_tick_loop broken _ _ _ _ _ Hloop) in Hsafe.
Qed.

Lemma X16_game_tick_returns_witness :
  ∃ w' r' evs, game_tick no_faults (draws_for [(9, 9)] ++ [1; 2]) ex_meal = Ok (w', r', evs) ∧
    inv w'.
Proof.
  apply (X16_game_tick_returns no_faults [(9, 9)] [1; 2] ex_meal ex_meal_inv).
  - apply NoDup_singleton.
  - repeat constructor; by vm_compute.
  - constructor; [|constructor]. split; [compute_done|].
    intros s [->|[]%elem_of_nil]%elem_of_cons. split; [compute_done|by vm_compute].
  - simpl. lia.
Defined.

(** ** What a frame shows *)

Lemma render_render_grid w :
  render w = rows ← render_grid w; Ok (MsgFrame WIDTH HEIGHT (String.string_of_list_ascii <$> rows)).
Proof.
  unfold render, render_grid. by destruct (draw_food _ _).
Qed.

Lemma get_string_of_list_ascii (l : list ascii) (n : nat) :
  String.get n (String.string_of_list_ascii l) = l !! n.
Proof.
  revert n. induction l as [|a l IH]; intros n; [by destruct n|].
  destruct n as [|n]; [done|]. simpl. apply IH.
Qed.

Lemma frame_at_grid (g : list (list ascii)) (c : pos) :
  frame_at (String.string_of_list_ascii <$> g) c = grid_at g c.
Proof.
  unfold frame_at, grid_at, grid. rewrite list_lookup_fmap.
  destruct (g !! Z.to_nat c.2) as [row|]; [|done].
  apply get_string_of_list_ascii.
Qed.

Lemma plot_at c c' ch (g g' : grid) :
  grid_ok g → in_bounds c → in_bounds c' → plot c ch g = Ok g' →
  grid_at g' c' = if decide (c' = c) then Some ch else grid_at g c'.
Proof.
  intros [Hlen Hrows] [Hx Hy] [Hx' Hy']. destruct c as [x y], c' as [x' y'].
  simpl in Hx, Hy, Hx', Hy'. unfold plot, grid in *.
  rewrite list_index_ok by lia. rewrite res_bind_Ok.
  destruct (lookup_lt_is_Some_2 g (Z.to_nat y)) as [row Hrow]; [lia|].
  rewrite Hrow. unfold of_option. rewrite res_bind_Ok.
  assert (Hrl : length row = Z.to_nat WIDTH).
  { rewrite Forall_forall in Hrows. apply Hrows. by eapply list_elem_of_lookup_2. }
  rewrite list_index_ok by lia. rewrite res_bind_Ok. intros [= <-].
  unfold grid_at, grid, fst, snd.
  destruct (decide (y' = y)) as [->|Hny].
  - rewrite list_lookup_insert_eq by lia. simpl. rewrite Hrow. simpl.
    destruct (decide (x' = x)) as [->|Hnx].
    + rewrite decide_True by done. apply list_lookup_insert_eq. lia.
    + rewrite decide_False by congruence. apply list_lookup_insert_ne. lia.
  - rewrite decide_False by congruence. rewrite list_lookup_insert_ne by lia. done.
Qed.

Lemma blank_at c : in_bounds c → grid_at blank c = Some "."%char.
Proof.
  intros [Hx Hy]. unfold grid_at, blank, grid.
  rewrite lookup_replicate_2 by lia. cbn [mbind option_bind].
  apply lookup_replicate_2. lia.
Qed.

Lemma draw_food_at cs (g g' : grid) c :
  grid_ok g → Forall in_bounds cs → in_bounds c → draw_food cs g = Ok g' →
  grid_at g' c = if decide (c ∈ cs) then Some "*"%char else grid_at g c.
Proof.
  intros Hg Hcs Hc. revert g Hg. induction Hcs as [|c0 cs Hc0 Hcs IH]; intros g Hg; simpl.
  - by intros [= <-].
  - intros H. inv_bind H.
    destruct (plot_ok c0 "*" g Hg Hc0) as (g1 & Hg1 & Hok1).
    assert (a = g1) as -> by congruence.
    rewrite (IH g1 Hok1 H). rewrite (plot_at c0 c "*" g g1) by done.
    repeat case_decide; try done; set_solver.
Qed.

Lemma draw_body_at ch i cs (g g' : grid) c :
  upper ch = ch →
  grid_ok g → Forall in_bounds cs → in_bounds c → draw_body ch i cs g = Ok g' →
  grid_at g' c = if decide (c ∈ cs) then Some ch else grid_at g c.
Proof.
  intros Hup Hg Hcs Hc. revert i g Hg.
  induction Hcs as [|c0 cs Hc0 Hcs IH]; intros i g Hg; simpl.
  - by intros [= <-].
  - rewrite Hup.
    assert ((if bool_decide (0 < i)%nat then ch else ch) = ch) as ->
      by (by destruct (bool_decide _)).
    intros H. inv_bind H.
    destruct (plot_ok c0 ch g Hg Hc0) as (g1 & Hg1 & Hok1).
    assert (a = g1) as -> by congruence.
    rewrite (IH (S i) g1 Hok1 H). rewrite (plot_at c0 c ch g g1) by done.
    repeat case_decide; try done; set_solver.
Qed.

Lemma upper_digit (p : Z) : upper (digit_char (p `mod` 10)) = digit_char (p `mod` 10).
Proof.
  pose proof (Z.mod_pos_bound p 10).
  assert (Hcases : ∃ n, Z.to_nat (p `mod` 10) = n ∧ (n < 10)%nat)
    by (eexists; split; [done|lia]).
  destruct Hcases as (n & Hn & Hlt). unfold digit_char. rewrite Hn.
  do 10 (destruct n as [|n]; [done|]). lia.
Qed.

Lemma draw_snakes_at ss (g g' : grid) c :
  grid_ok g → Forall snake_ok (Dict.values ss) → in_bounds c →
  draw_snakes ss g = Ok g' →
  grid_at g' c =
    match top_snake c ss with
    | Some p => Some (digit_char (p `mod` 10))
    | None => grid_at g c
    end.
Proof.
  intros Hg Hss Hc. revert g Hg.
  induction ss as [|[p s] ss IH]; intros g Hg; simpl.
  - by intros [= <-].
  - apply Forall_cons in Hss as [(_ & Hb & _) Hss]. simpl in Hb.
    destruct (alive s); simpl.
    + intros H. inv_bind H.
      destruct (draw_body_ok (digit_char (p `mod` 10)) 0 (body s) g Hb Hg)
        as (g1 & Hg1 & Hok1).
      assert (a = g1) as -> by congruence.
      rewrite (IH Hss g1 Hok1 H).
      destruct (top_snake c ss); [done|].
      rewrite (draw_body_at _ _ _ g g1 c (upper_digit p) Hg Hb Hc Hg1).
      by case_decide; [rewrite bool_decide_eq_true_2|rewrite bool_decide_eq_false_2].
    + intros H. rewrite (IH Hss g Hg H). by destruct (top_snake c ss).
Qed.

(** X17: what a frame shows at a cell of the board: the last digit of the pid of the
    last snake, in the order of the snake dictionary, that is alive and
    lies on the cell; without such a snake, '*' where there is food and
    '.' elsewhere.  Dead snakes do not show, and a snake hides the food and
    the earlier snakes under it. *)
Theorem X17_frame_cell (w : Server) (c : pos) :
  state_ok w → in_bounds c →
  ∃ rows, render w = Ok (MsgFrame WIDTH HEIGHT rows) ∧
    frame_at rows c =
      Some match top_snake c (snakes w) with
           | Some p => digit_char (p `mod` 10)
           | None => if bool_decide (c ∈ food w) then "*"%char else "."%char
           end.
Proof.
  intros [Hs Hf] Hc. rewrite render_render_grid. unfold render_grid.
  assert (Hfood : Forall in_bounds (elements (food w))).
  { apply Forall_forall. intros c' Hc'%elem_of_elements. by apply Hf. }
  destruct (draw_food_ok (elements (food w)) blank Hfood blank_ok) as (g1 & Hg1 & Hok1).
  destruct (draw_snakes_ok (snakes w) g1 Hs Hok1) as (g2 & Hg2 & Hok2).
  rewrite Hg1, res_bind_Ok, Hg2, res_bind_Ok.
  eexists. split; [done|]. rewrite frame_at_grid.
  rewrite (draw_snakes_at _ _ _ c Hok1 Hs Hc Hg2).
  destruct (top_snake c (snakes w)); [done|].
  rewrite (draw_food_at (elements (food w)) blank g1 c blank_ok Hfood Hc Hg1).
  rewrite blank_at by done.
  case_decide as E; rewrite elem_of_elements in E.
  - by rewrite bool_decide_eq_true_2.
  - by rewrite bool_decide_eq_false_2.
Qed.

Lemma X17_frame_cell_witness :
  ∃ rows, render ex_meal = Ok (MsgFrame WIDTH HEIGHT rows) ∧
    frame_at rows (4, 5) = Some "*"%char.
Proof.
  destruct (X17_frame_cell ex_meal (4, 5) (proj2 ex_meal_inv)) as (rows & Hr & Hat).
  - by vm_compute.
  - exists rows. split; [done|]. rewrite Hat. f_equal.
Defined.

(** ** When a session ends on a line *)





(** ** What the physics step leaves alone *)

Lemma moved_pid (ate : bool) (head : pos) (s : Snake) : pid (moved ate head s) = pid s.
Proof. unfold moved. cbv zeta. by destruct (bool_decide (0 < _)). Qed.

(** X19: the physics step adds and removes no snake and no registration and does not
    move the pid counter; it never changes the facing or the pid of a
    snake, and never brings a dead snake back. *)
Theorem X19_step_keeps_identity (broken : faults) (r : rng) (w w' : Server) (r' : rng)
    (evs : list io_event) :
  NoDup (Dict.keys (snakes w)) →
  game_tick broken r w = Ok (w', r', evs) →
  Dict.keys (snakes w') = Dict.keys (snakes w) ∧ writers w' = writers w ∧
  players w' = players w ∧ next_pid w' = next_pid w ∧
  ∀ p s, snake_of p w = Some s →
    ∃ s', snake_of p w' = Some s' ∧ dir s' = dir s ∧ pid s' = pid s ∧
          (alive s' = true → alive s = true).
Proof.
  intros Hnd Htick. pose proof (game_tick_frame _ _ _ _ _ _ Htick) as (Hk & Hw & Hn & Hp).
  split_and!; try done. intros p s Hs.
  apply game_tick_inv in Htick as (kills & Hloop & _).
  destruct (alive s) eqn:Hal.
  - destruct (tick_loop_alive _ _ _ _ _ _ _ Hnd Hs Hal Hloop)
      as (wm & rm & km & head & _ & _ & _ & _ & _ & Hp').
    eexists. split; [done|].
    destruct (collision head (snakes wm));
      [|rewrite moved_dir, moved_pid];
      (split; [reflexivity|split; [reflexivity|intros ?; reflexivity]]).
  - exists s. split; [by eapply tick_loop_dead_stays|].
    split; [reflexivity|split; [reflexivity|congruence]].
Qed.

Lemma X19_step_keeps_identity_witness :
  ∃ w' r' evs, game_tick no_faults [] ex_facing = Ok (w', r', evs) ∧
    Dict.keys (snakes w') = [1; 2] ∧ writers w' = writers ex_facing.
Proof.
  destruct (game_tick no_faults [] ex_facing) as [[[w' r'] evs]|] eqn:H;
    [|by vm_compute in H].
  exists w', r', evs. split; [done|].
  destruct (X19_step_keeps_identity no_faults [] ex_facing w' r' evs) as (Hk & Hw & _);
    [compute_done|done|]. by split.
Defined.

(** ** Pids *)

Lemma exec_pids o w r w' r' evs :
  1 ≤ next_pid w → Dict.keys (snakes w) = seqZ 1 (next_pid w - 1) →
  exec o (w, r) = Ok (w', r', evs) →
  1 ≤ next_pid w' ∧ Dict.keys (snakes w') = seqZ 1 (next_pid w' - 1).
Proof.
  intros Hn Hk H. destruct o as [reader writer|p i|broken|broken]; simpl in H.
  - inv_bind H. destruct a as [[q w1] r1]. injection H as <- <- <-.
    unfold accept in Ha. inv_bind Ha. destruct a as [x r1'].
    inv_bind Ha. destruct a as [y r2]. inv_bind Ha. destruct a as [d r3].
    injection Ha as <- <- <-. simpl. split; [lia|].
    rewrite dict_keys_set.
    assert (Dict.mem (next_pid w) (snakes w) = false) as ->.
    { destruct (Dict.mem (next_pid w) (snakes w)) eqn:E; [|done].
      apply dict_mem_true in E. rewrite Hk in E. apply elem_of_seqZ in E. lia. }
    rewrite Hk. replace (next_pid w + 1 - 1) with ((next_pid w - 1) + 1) by lia.
    rewrite seqZ_app by lia. f_equal.
    replace (1 + (next_pid w - 1)) with (next_pid w) by lia. done.
  - injection H as <- <- <-. unfold session_step.
    assert (Hc : 1 ≤ next_pid (cleanup p w) ∧
      Dict.keys (snakes (cleanup p w)) = seqZ 1 (next_pid (cleanup p w) - 1)).
    { rewrite cleanup_eq. simpl. by rewrite dict_keys_alter. }
    destruct i as [|l]; cbn [fst]; [done|].
    destruct (handle_line p l w) eqn:E; cbn [fst]; [|done].
    apply handle_line_effect in E as (_ & (-> & _ & -> & _) & _). done.
  - apply game_tick_frame in H as (-> & _ & -> & _). done.
  - inv_bind H. destruct a as [w1 evs1]. injection H as <- <- <-.
    unfold broadcast_frame in Ha. inv_bind Ha.
    destruct (broadcast_pass broken a (writers w) []) as [evs0 dead].
    inv_bind Ha. by injection Ha as <- <-.
Qed.

Lemma run_pids os w r w' r' :
  1 ≤ next_pid w → Dict.keys (snakes w) = seqZ 1 (next_pid w - 1) →
  run os (w, r) = Ok (w', r') →
  1 ≤ next_pid w' ∧ Dict.keys (snakes w') = seqZ 1 (next_pid w' - 1).
Proof.
  revert w r. induction os as [|o os IH]; intros w r Hn Hk H.
  - by injection H as <- <-.
  - change (run (o :: os) (w, r)) with
      (exec o (w, r) ≫= λ '(w', r', _), run os (w', r')) in H.
    inv_bind H. destruct a as [[w1 r1] evs1].
    destruct (exec_pids _ _ _ _ _ _ Hn Hk Ha) as [Hn1 Hk1]. by eapply IH.
Qed.

(** X20: pids are handed out as 1, 2, 3, ... in the order in which connections are
    accepted and are never reused: in every state the server reaches, the
    snake dictionary holds, in this order, exactly the pids from 1 up to the
    one before the counter; no snake ever leaves it. *)
Theorem X20_pids_consecutive (r0 : rng) (w0 : Server) (r1 : rng) (os : list op)
    (w : Server) (r : rng) :
  start r0 = Ok (w0, r1) → run os (w0, r1) = Ok (w, r) →
  1 ≤ next_pid w ∧ Dict.keys (snakes w) = seqZ 1 (next_pid w - 1).
Proof.
  intros (_ & Hs & (_ & _ & Hn & _))%spawn_foods_spec Hrun.
  eapply run_pids; [| |done].
  - rewrite Hn. simpl. lia.
  - rewrite Hs, Hn. done.
Qed.

Lemma X20_pids_consecutive_witness :
  ∃ w, 1 ≤ next_pid w ∧ Dict.keys (snakes w) = seqZ 1 (next_pid w - 1) ∧ next_pid w = 3.
Proof.
  pose (r0 := draws_for [(0, 0); (1, 0); (2, 0); (3, 0); (4, 0); (5, 0); (6, 0);
                         (7, 0); (8, 0); (9, 0)] ++ [8; 0; 3; 5; 5; 2]).
  destruct (start r0) as [[w0 r1]|] eqn:Hstart; [|by vm_compute in Hstart].
  destruct (run [OpAccept 10%nat 20%nat; OpInput 1 Eof; OpAccept 11%nat 21%nat] (w0, r1))
    as [[w r]|] eqn:Hrun.
  - exists w. destruct (X20_pids_consecutive r0 w0 r1 _ w r Hstart Hrun) as [? ?].
    split_and!; try done.
    vm_compute in Hstart. injection Hstart as <- <-.
    vm_compute in Hrun. by injection Hrun as <- <-.
  - vm_compute in Hstart. injection Hstart as <- <-. by vm_compute in Hrun.
Defined.
